(** * A shallow embedding of [automated.py]

    The development follows the classes of the script:
    [FingerPrintGenerator], [HoneypotDetector], [ProxyRotator] and
    [DrivingTestBooker].  Everything the script obtains from outside
    (the clock, the random source, what the browser shows) is an explicit
    oracle argument, so each statement below holds for every behaviour of
    the outside world. *)

From Stdlib Require Import ZArith QArith Lia Ascii String List.
From Stdlib Require OrdersEx.
From stdpp Require Import base option list gmap strings pretty.

Local Open Scope string_scope.
Local Open Scope list_scope.

(* ===================================================================== *)
(** * Definitions                                                         *)
(* ===================================================================== *)

(** ** [ProxyConfig] and [ProxyRotator] *)

Record ProxyConfig := mkProxyConfig {
  host : string;
  port : Z;
  username : string;
  password : string;
  rotation_interval : Z           (* in seconds *)
}.

Module ProxyRotator.

(** The object's three attributes.  [time.time()] readings are modelled
    as rational seconds. *)
Record t := mk {
  proxies : list ProxyConfig;
  current_index : nat;
  last_rotation_time : Q
}.

(** [__init__(proxies)], with the clock reading [now]. *)
Definition init (ps : list ProxyConfig) (now : Q) : t :=
  {| proxies := ps; current_index := 0; last_rotation_time := now |}.

(** [self.proxies[self.current_index]]; [None] stands for [IndexError]. *)
Definition get_current_proxy (r : t) : option ProxyConfig :=
  proxies r !! current_index r.

(** [rotate]: [now] is the reading of [time.time()] taken inside it.
    [None] stands for the [ZeroDivisionError] of [% len(self.proxies)]
    on an empty pool, raised before anything is assigned. *)
Definition rotate (now : Q) (r : t) : option (ProxyConfig * t) :=
  match length (proxies r) with
  | O => None
  | S _ =>
      let r' := {| proxies := proxies r;
                   current_index := (current_index r + 1) mod length (proxies r);
                   last_rotation_time := now |} in
      p ← get_current_proxy r';
      Some (p, r')
  end.

(** [time.time() - self.last_rotation_time] *)
Definition elapsed_time (now : Q) (r : t) : Q :=
  (now - last_rotation_time r)%Q.

(** [rotate_if_needed]: [now] is the reading used for [elapsed_time],
    [now'] the later one taken by [rotate]. *)
Definition rotate_if_needed (now now' : Q) (r : t) : option (bool * t) :=
  current_proxy ← get_current_proxy r;
  if Qle_bool (inject_Z (rotation_interval current_proxy)) (elapsed_time now r)
  then '(_, r') ← rotate now' r; Some (true, r')
  else Some (false, r).

(** [get_proxy_url] *)
Definition get_proxy_url (r : t) : option string :=
  p ← get_current_proxy r;
  Some ("http://" +:+ username p +:+ ":" +:+ password p +:+ "@" +:+ host p
          +:+ ":" +:+ pretty (port p)).

End ProxyRotator.

(** ** Text helpers: the string operations of Python the script relies on *)

Module Text.

(** [sub in s] *)
Fixpoint contains (sub s : string) : bool :=
  String.prefix sub s ||
  match s with
  | EmptyString => false
  | String _ s' => contains sub s'
  end.

Definition lower_ascii (c : ascii) : ascii :=
  let n := nat_of_ascii c in
  if (65 <=? n)%nat && (n <=? 90)%nat then ascii_of_nat (n + 32) else c.

(** [s.lower()], on ASCII text *)
Fixpoint lower (s : string) : string :=
  match s with
  | EmptyString => EmptyString
  | String c s' => String (lower_ascii c) (lower s')
  end.

(** [s.replace(pat, rep)] for a non-empty [pat]; [skip] counts the
    characters of a match still to be dropped. *)
Fixpoint replace_from (skip : nat) (pat rep s : string) : string :=
  match s with
  | EmptyString => EmptyString
  | String c s' =>
      match skip with
      | S k => replace_from k pat rep s'
      | O => if String.prefix pat s
             then rep +:+ replace_from (String.length pat - 1) pat rep s'
             else String c (replace_from 0 pat rep s')
      end
  end.

Definition replace : string → string → string → string := replace_from 0.

End Text.

(** ** [random]: the source of randomness

    [random.choice(seq)] picks [seq[i]] for an index [i] below [len(seq)];
    the raw draw is supplied from outside and reduced modulo the length.
    [None] stands for the [IndexError] on an empty sequence. *)

Definition choice {A} (draw : nat) (seq : list A) : option A :=
  match seq with
  | [] => None
  | _ => seq !! (draw mod length seq)
  end.

(** ** [FingerPrintGenerator] *)

Module FingerPrintGenerator.

Definition CHROME_VERSIONS : list string :=
  [ "112.0.5615.49"; "112.0.5615.121"; "112.0.5615.138";
    "113.0.5672.63"; "113.0.5672.92"; "113.0.5672.127";
    "114.0.5735.90"; "114.0.5735.106"; "114.0.5735.133";
    "115.0.5790.102"; "115.0.5790.171" ].

Definition USER_AGENTS : list string :=
  [ "Mozilla/5.0 (Windows NT 10.0; Win64; x64) AppleWebKit/537.36 (KHTML, like Gecko) Chrome/{version} Safari/537.36";
    "Mozilla/5.0 (Macintosh; Intel Mac OS X 10_15_7) AppleWebKit/537.36 (KHTML, like Gecko) Chrome/{version} Safari/537.36";
    "Mozilla/5.0 (X11; Linux x86_64) AppleWebKit/537.36 (KHTML, like Gecko) Chrome/{version} Safari/537.36" ].

Record Viewport := mkViewport { width : Z; height : Z }.

Definition VIEWPORT_SIZES : list Viewport :=
  [ mkViewport 1366 768; mkViewport 1440 900; mkViewport 1536 864;
    mkViewport 1600 900; mkViewport 1920 1080; mkViewport 2048 1152;
    mkViewport 2560 1440 ].

(** The three lists written out inside [generate]: [[1, 1.25, 1.5, 2]],
    [[True, False]] and [["en-GB", "en-US"]]. *)
Definition SCALE_FACTORS : list Q := [ 1; 5 # 4; 3 # 2; 2 ]%Q.
Definition TOUCH : list bool := [ true; false ].
Definition LOCALES : list string := [ "en-GB"; "en-US" ].

(** The dictionary returned by [generate]. *)
Record Fingerprint := mkFingerprint {
  userAgent : string;
  viewport : Viewport;
  deviceScaleFactor : Q;
  hasTouch : bool;
  locale : string;
  timezoneId : string
}.

(** [user_agent_template.format(version=chrome_version)] *)
Definition format_version (template version : string) : string :=
  Text.replace "{version}" version template.

(** [generate]; [draw i] is the raw draw behind the [i]-th call of
    [random.choice], in the order in which the calls are made. *)
Definition generate (draw : nat → nat) : option Fingerprint :=
  chrome_version ← choice (draw 0) CHROME_VERSIONS;
  user_agent_template ← choice (draw 1) USER_AGENTS;
  let user_agent := format_version user_agent_template chrome_version in
  viewport ← choice (draw 2) VIEWPORT_SIZES;
  scale ← choice (draw 3) SCALE_FACTORS;
  touch ← choice (draw 4) TOUCH;
  loc ← choice (draw 5) LOCALES;
  Some {| userAgent := user_agent;
          viewport := viewport;
          deviceScaleFactor := scale;
          hasTouch := touch;
          locale := loc;
          timezoneId := "Europe/London" |}.

End FingerPrintGenerator.

(** The random source as the script consumes it: a stream of
    [random.random()] values and a stream of raw [random.choice] draws.
    The delays drawn with [randint] and [uniform] only set the pace of the
    script and are not modelled. *)

Record Rng := mkRng {
  randoms : nat → Q;
  picks : nat → nat
}.

(** [random.random()] *)
Definition random (g : Rng) : Q * Rng :=
  (randoms g 0, {| randoms := λ n, randoms g (S n); picks := picks g |}).

(** [random.choice(seq)] *)
Definition random_choice {A} (seq : list A) (g : Rng) : option A * Rng :=
  (choice (picks g 0) seq,
   {| randoms := randoms g; picks := λ n, picks g (S n) |}).

(** [x < y] on rationals *)
Definition Qlt_bool (x y : Q) : bool := negb (Qle_bool y x).

(** A call either returns a value or raises an exception. *)
Inductive Res (A : Type) : Type :=
| Returned (a : A)
| Raised.
Arguments Returned {A} a.
Arguments Raised {A}.

(** ** The form fields of a page, as the typing primitive and the honeypot
    scan see them

    The page is a plain form: a visible control takes every character
    typed into it, and a click or a key press on it does not raise. *)

Module Dom.

Record Element := mkElement {
  tag : string;
  attrs : gmap string string;   (* the attributes: id, name, type, style, ... *)
  value : string;               (* the text the control holds *)
  selected : bool;              (* the whole text is selected *)
  is_visible : bool
}.

Abbreviation Page := (list Element).

Definition set_value (v : string) (sel : bool) (e : Element) : Element :=
  {| tag := tag e; attrs := attrs e; value := v; selected := sel;
     is_visible := is_visible e |}.

(** The two attribute tests used by the script's CSS selectors:
    [[name="v"]] and [[name*="v"]]. *)
Inductive AttrTest :=
| AttrEq (name v : string)
| AttrHas (name v : string).

(** A compound selector: an optional tag name and attribute tests;
    [#x] is [[id="x"]] without a tag. *)
Record Selector := mkSelector {
  sel_tag : option string;
  sel_tests : list AttrTest
}.

Definition by_id (i : string) : Selector := mkSelector None [AttrEq "id" i].
Definition input (tests : list AttrTest) : Selector := mkSelector (Some "input") tests.

Definition attr_holds (e : Element) (t : AttrTest) : bool :=
  match t with
  | AttrEq n v => match attrs e !! n with Some a => String.eqb a v | None => false end
  | AttrHas n v => match attrs e !! n with Some a => Text.contains v a | None => false end
  end.

Definition matches (s : Selector) (e : Element) : bool :=
  match sel_tag s with Some t => String.eqb t (tag e) | None => true end
  && forallb (attr_holds e) (sel_tests s).

(** [page.query_selector_all(selector)] *)
Definition query_selector_all (s : Selector) (pg : Page) : list Element :=
  filter (λ e, matches s e = true) pg.

(** Position of the first element matching the selector. *)
Fixpoint find_first (s : Selector) (pg : Page) : option nat :=
  match pg with
  | [] => None
  | e :: pg' => if matches s e then Some 0 else S <$> find_first s pg'
  end.

(** *** The keyboard on a focused text control, the caret at the end *)

(** [element.click(click_count=3)]: selects the whole text *)
Definition triple_click (e : Element) : Element := set_value (value e) true e.

Fixpoint drop_last (s : string) : string :=
  match s with
  | EmptyString => EmptyString
  | String c EmptyString => EmptyString
  | String c s' => String c (drop_last s')
  end.

(** [page.keyboard.press("Backspace")] *)
Definition backspace (e : Element) : Element :=
  if selected e then set_value "" false e
  else set_value (drop_last (value e)) false e.

(** [element.type(c)] for one character *)
Definition type_char (c : ascii) (e : Element) : Element :=
  if selected e then set_value (String c "") false e
  else set_value (value e +:+ String c "") false e.

Definition WRONG_CHARS : list ascii :=
  list_ascii_of_string "abcdefghijklmnopqrstuvwxyz0123456789".

(** The body of [for char in text], on the element and the random source.
    [None] stands for an exception. *)
Fixpoint type_chars (text : string) (g : Rng) (e : Element) : option (Element * Rng) :=
  match text with
  | EmptyString => Some (e, g)
  | String char rest =>
      let '(x, g) := random g in
      '(e, g) ← (if Qlt_bool x (3 # 100)
                 then let '(w, g) := random_choice WRONG_CHARS g in
                      wrong_char ← w;
                      Some (backspace (type_char wrong_char e), g)
                 else Some (e, g));
      let e := type_char char e in
      let '(_, g) := random g in       (* the occasional pause *)
      type_chars rest g e
  end.

(** [type_like_human(selector, text)].  [wait_for_selector] waits for the
    first match of the selector to be visible and raises on time-out. *)
Definition type_like_human (s : Selector) (text : string) (g : Rng) (pg : Page)
  : Res bool * Page * Rng :=
  match find_first s pg with
  | None => (Raised, pg, g)
  | Some i =>
      match pg !! i with
      | None => (Raised, pg, g)
      | Some element =>
          if negb (is_visible element) then (Raised, pg, g) else
          let element := triple_click element in
          let element := backspace element in
          match type_chars text g element with
          | None => (Raised, pg, g)
          | Some (element, g) => (Returned true, <[i := element]> pg, g)
          end
      end
  end.

End Dom.

(** ** [HoneypotDetector] *)

Module HoneypotDetector.
Import Dom.

Definition honeypot_selectors : list Selector :=
  [ input [AttrEq "type" "text"; AttrHas "style" "display: none"];
    input [AttrEq "type" "text"; AttrHas "style" "visibility: hidden"];
    input [AttrHas "style" "opacity: 0"];
    input [AttrHas "name" "hp"];
    input [AttrHas "name" "honey"];
    input [AttrHas "name" "pot"];
    input [AttrHas "name" "bot"];
    input [AttrHas "style" "position: absolute"; AttrHas "style" "left: -"];
    input [AttrHas "style" "position: absolute"; AttrHas "style" "top: -"] ].

(** A field is flagged when one of the selectors matches it. *)
Definition is_honeypot (e : Element) : bool :=
  existsb (λ s, matches s e) honeypot_selectors.

(** [name_attr or id_attr or 'unnamed'] *)
Definition label (e : Element) : string :=
  match attrs e !! "name" with
  | Some n => if String.eqb n "" then
                match attrs e !! "id" with
                | Some i => if String.eqb i "" then "unnamed" else i
                | None => "unnamed"
                end
              else n
  | None => match attrs e !! "id" with
            | Some i => if String.eqb i "" then "unnamed" else i
            | None => "unnamed"
            end
  end.

(** [identify_and_avoid_honeypots(page)]: its only effect is the lines it
    logs, which are returned; the page is not touched and nothing is
    handed to the caller. *)
Definition identify_and_avoid_honeypots (pg : Page) : list string :=
  flat_map (λ selector,
    flat_map (λ element,
      ("Potential honeypot detected: " +:+ label element) ::
      (if negb (is_visible element)
       then ["Leaving honeypot field empty: " +:+ label element]
       else []))
    (query_selector_all selector pg))
  honeypot_selectors.

(** The part of [login] between the honeypot scan and the CAPTCHA check:
    scan, then type the two credentials. *)
Definition fill_login_form (license_number application_reference : string)
    (g : Rng) (pg : Page) : Res bool * Page * Rng * list string :=
  let log := identify_and_avoid_honeypots pg in
  match type_like_human (by_id "driving-licence-number") license_number g pg with
  | (Returned _, pg, g) =>
      (type_like_human (by_id "application-reference-number")
         application_reference g pg, log)
  | r => (r, log)
  end.

End HoneypotDetector.

(** ** Parsing: [str.split], [int] and [datetime.strptime] *)

Module Parse.

(** [s.split(sep)] for a one-character separator *)
Fixpoint split (sep : ascii) (s : string) : list string :=
  match s with
  | EmptyString => [EmptyString]
  | String c s' =>
      if Ascii.eqb c sep then EmptyString :: split sep s'
      else match split sep s' with
           | [] => [String c EmptyString]
           | w :: ws => String c w :: ws
           end
  end.

Definition digit (c : ascii) : option Z := Z.of_nat <$> Ascii.is_nat c.

(** A non-empty run of decimal digits, most significant first. *)
Fixpoint digits_from (acc : Z) (s : string) : option Z :=
  match s with
  | EmptyString => Some acc
  | String c s' => d ← digit c; digits_from (10 * acc + d) s'
  end.

Definition digits (s : string) : option Z :=
  match s with
  | EmptyString => None
  | _ => digits_from 0 s
  end.

Fixpoint lstrip (s : string) : string :=
  match s with
  | String c s' => if Ascii.is_space c then lstrip s' else s
  | EmptyString => EmptyString
  end.

Fixpoint rstrip (s : string) : string :=
  match s with
  | EmptyString => EmptyString
  | String c s' =>
      match rstrip s' with
      | EmptyString => if Ascii.is_space c then EmptyString else String c EmptyString
      | r => String c r
      end
  end.

(** Digits with single underscores between them, as [int] accepts them;
    [prev] tells whether the previous character was a digit. *)
Fixpoint grouped_digits (prev : bool) (acc : Z) (s : string) : option Z :=
  match s with
  | EmptyString => if prev then Some acc else None
  | String c s' =>
      if Ascii.eqb c "_" then
        if prev then grouped_digits false acc s' else None
      else d ← digit c; grouped_digits true (10 * acc + d) s'
  end.

(** [int(s)] on ASCII text: surrounding blanks, an optional sign, decimal
    digits.  [None] stands for [ValueError]. *)
Definition int (s : string) : option Z :=
  match rstrip (lstrip s) with
  | String "-" body => Z.opp <$> grouped_digits false 0 body
  | String "+" body => grouped_digits false 0 body
  | body => grouped_digits false 0 body
  end.

(** [hour, minute = map(int, s.split(":"))]: exactly two fields, both
    integers. *)
Definition hour_minute (s : string) : option (Z * Z) :=
  match split ":" s with
  | [h; m] => hour ← int h; minute ← int m; Some (hour, minute)
  | _ => None
  end.

End Parse.

(** ** [datetime]: calendar dates (every [datetime] of the script is a date
    at midnight) *)

Module Calendar.

Record datetime := mkDate { year : Z; month : Z; day : Z }.

Definition is_leap (y : Z) : bool :=
  (y mod 4 =? 0)%Z && (negb (y mod 100 =? 0)%Z || (y mod 400 =? 0)%Z).

Definition days_in_month (y m : Z) : Z :=
  if (m =? 2)%Z then (if is_leap y then 29 else 28)%Z
  else if ((m =? 4) || (m =? 6) || (m =? 9) || (m =? 11))%Z then 30%Z
  else 31%Z.

Definition days_before_year (y : Z) : Z :=
  let p := (y - 1)%Z in (p * 365 + p / 4 - p / 100 + p / 400)%Z.

Fixpoint days_before_month_nat (y : Z) (m : nat) : Z :=
  match m with
  | O => 0%Z
  | S k => (days_before_month_nat y k + days_in_month y (Z.of_nat (S k)))%Z
  end.

(** Days of the year before the first day of month [m] *)
Definition days_before_month (y m : Z) : Z :=
  days_before_month_nat y (Z.to_nat (m - 1)).

Definition toordinal (d : datetime) : Z :=
  (days_before_year (year d) + days_before_month (year d) (month d) + day d)%Z.

(** [d.weekday()]: 0 is Monday, 6 is Sunday *)
Definition weekday (d : datetime) : Z := ((toordinal d + 6) mod 7)%Z.

(** [a < b] on dates *)
Definition ltb (a b : datetime) : bool :=
  (year a <? year b)%Z ||
  ((year a =? year b)%Z &&
   ((month a <? month b)%Z || ((month a =? month b)%Z && (day a <? day b)%Z))).

(** The order on dates: by year, then month, then day *)
Definition lt (a b : datetime) : Prop :=
  (year a < year b)%Z ∨
  (year a = year b ∧ ((month a < month b)%Z ∨ (month a = month b ∧ (day a < day b)%Z))).

Definition le (a b : datetime) : Prop := a = b ∨ lt a b.

(** The fields of the format [%Y-%m-%d] as [strptime] accepts them: four
    digits; one digit 1-9 or two digits 01-12; one digit 1-9, two digits
    01-31, or a blank and a digit 1-9. *)
Definition year_field (s : string) : option Z :=
  if (String.length s =? 4)%nat then Parse.digits s else None.

Definition month_field (s : string) : option Z :=
  m ← Parse.digits s;
  if ((String.length s <=? 2)%nat && (1 <=? m)%Z && (m <=? 12)%Z) then Some m else None.

Definition day_field (s : string) : option Z :=
  match s with
  | String " " (String c EmptyString) =>
      d ← Parse.digit c; if (1 <=? d)%Z then Some d else None
  | _ =>
      d ← Parse.digits s;
      if ((String.length s <=? 2)%nat && (1 <=? d)%Z && (d <=? 31)%Z) then Some d else None
  end.

(** [datetime.strptime(s, "%Y-%m-%d")] on ASCII text; [None] stands for
    [ValueError] (no match, text left over, or no such day). *)
Definition strptime (s : string) : option datetime :=
  match Parse.split "-" s with
  | [ys; ms; ds] =>
      y ← year_field ys; m ← month_field ms; d ← day_field ds;
      if ((1 <=? y)%Z && (d <=? days_in_month y m)%Z)
      then Some (mkDate y m d) else None
  | _ => None
  end.

End Calendar.

(** ** [DrivingTestBooker]: configuration, state and the outside world *)

Record TestCenter := mkTestCenter {
  center_id : string;             (* id *)
  center_name : string;           (* name *)
  distance : option Q
}.

Record DateRange := mkDateRange {
  start_date : Calendar.datetime;
  end_date : Calendar.datetime
}.

Record TimePreference := mkTimePreference {
  earliest : string;              (* "HH:MM" *)
  latest : string
}.

Record Credentials := mkCredentials {
  license_number : string;
  application_reference : string
}.

Record Config := mkConfig {
  credentials : Credentials;
  test_centers : list TestCenter;
  date_range : DateRange;
  time_preference : TimePreference;
  preferred_days : gset Z;        (* 0 = Monday, 6 = Sunday *)
  proxies : list ProxyConfig;
  check_interval : Z * Z
}.

(** The dictionary built by [check_available_slots] for a suitable slot. *)
Record Slot := mkSlot {
  slot_test_center : string;      (* 'test_center' *)
  slot_date : string;             (* 'date' *)
  slot_time : string;             (* 'time' *)
  element_selector : string       (* 'element_selector' *)
}.

(** The browser operations that may fail with an exception. *)
Inductive Op :=
| PageClose | ContextClose | BrowserClose
| PlaywrightStart | Launch | NewContext | ContextInitScript | NewPage | PageInitScript
| Click (selector : string)
| WaitForSelector (selector : string)
| TakeScreenshot (prefix : string).

(** What a run does to the outside world, and the log lines the claims
    refer to.  [Scanned] stands for the line that closes a scan ("Found n
    available slots at ..." or "No suitable slots found at ...") and carries
    the list whose length the line prints; [BookingAttempt] stands for
    "Attempting to book slot at ...". *)
Inductive Event :=
| PageClosed (h : nat) | ContextClosed (h : nat) | BrowserClosed (h : nat)
| PlaywrightStarted
| BrowserLaunched (h : nat) (proxy_url : string)
| ContextCreated (h : nat) (fp : FingerPrintGenerator.Fingerprint)
| ContextScripted
| PageCreated (h : nat)
| PageScripted
| Clicked (selector : string)
| Appeared (selector : string)
| ScreenshotTaken (prefix : string)
| Scanned (center : string) (slots : list Slot)
| BookingAttempt (slot : Slot)
| Notified (center date time : string).

(** The outside world.  Every answer depends on the number of interactions
    made so far, so the same request may be answered differently when it is
    repeated. *)
Record Env := mkEnv {
  clock : nat → Q;                                   (* [time.time()] *)
  fingerprint_draws : nat → nat → nat;               (* draws behind [generate] *)
  op_raises : nat → Op → bool;                       (* the operation raises *)
  login_result : nat → Res bool;                     (* outcome of the login flow *)
  search_result : nat → TestCenter → Res bool;       (* outcome of [search_test_center] *)
  day_attrs : nat → TestCenter → list (option string);
      (* [data-date] of the calendar entries that are not disabled *)
  time_attrs : nat → TestCenter → string → list (option string);
      (* [data-time] of the time entries shown for a date *)
  confirmation_text : nat → Slot → option string
      (* [text_content] of the confirmation block *)
}.

(** The attributes of the [DrivingTestBooker] object, with the number of
    interactions made so far and the trace of events, oldest first. *)
Record State := mkState {
  proxy_rotator : ProxyRotator.t;
  browser : option nat;
  context : option nat;
  page : option nat;
  logged_in : bool;
  steps : nat;
  trace : list Event
}.

Definition set_proxy_rotator (r : ProxyRotator.t) (st : State) : State :=
  mkState r (browser st) (context st) (page st) (logged_in st) (steps st) (trace st).
Definition set_browser (h : option nat) (st : State) : State :=
  mkState (proxy_rotator st) h (context st) (page st) (logged_in st) (steps st) (trace st).
Definition set_context (h : option nat) (st : State) : State :=
  mkState (proxy_rotator st) (browser st) h (page st) (logged_in st) (steps st) (trace st).
Definition set_page (h : option nat) (st : State) : State :=
  mkState (proxy_rotator st) (browser st) (context st) h (logged_in st) (steps st) (trace st).
Definition set_logged_in (b : bool) (st : State) : State :=
  mkState (proxy_rotator st) (browser st) (context st) (page st) b (steps st) (trace st).
Definition tick (st : State) : State :=
  mkState (proxy_rotator st) (browser st) (context st) (page st) (logged_in st)
          (S (steps st)) (trace st).
Definition record (ev : Event) (st : State) : State :=
  mkState (proxy_rotator st) (browser st) (context st) (page st) (logged_in st)
          (steps st) (trace st ++ [ev]).

(** *** Methods as state transformers that may raise *)

Definition M (A : Type) : Type := State → Res A * State.

#[global] Instance M_ret : MRet M := λ A a st, (Returned a, st).
#[global] Instance M_bind : MBind M := λ A B f m st,
  match m st with
  | (Returned a, st') => f a st'
  | (Raised, st') => (Raised, st')
  end.

Definition raise {A} : M A := λ st, (Raised, st).

(** [try: body except Exception: handler] *)
Definition try {A} (body handler : M A) : M A := λ st,
  match body st with
  | (Raised, st') => handler st'
  | r => r
  end.

Definition get_state : M State := λ st, (Returned st, st).
Definition modify (f : State → State) : M unit := λ st, (Returned tt, f st).
Definition emit (ev : Event) : M unit := modify (record ev).

(** An uncaught Python error inside a computed value *)
Definition lift {A} (o : option A) : M A :=
  match o with Some a => mret a | None => raise end.

(** *** [available_slots.sort(key=lambda x: (x['date'], x['time']))]

    The keys are pairs of strings and are compared as Python compares
    tuples of strings; the sort is stable. *)

Definition key_ltb (a b : Slot) : bool :=
  match String.compare (slot_date a) (slot_date b) with
  | Lt => true
  | Eq => String.ltb (slot_time a) (slot_time b)
  | Gt => false
  end.

Fixpoint insert_slot (x : Slot) (sorted : list Slot) : list Slot :=
  match sorted with
  | [] => [x]
  | y :: rest => if key_ltb y x then y :: insert_slot x rest else x :: sorted
  end.

Definition sort_slots (slots : list Slot) : list Slot :=
  foldr insert_slot [] slots.

(** [hour * 60 + minute]: the time of day in minutes, as the inner loop of
    [check_available_slots] computes it *)
Definition minutes (hm : Z * Z) : Z := (hm.1 * 60 + hm.2)%Z.

(** ** [DrivingTestBooker]: the methods *)

Section Booker.
Variable env : Env.
Variable cfg : Config.

(** One request to the outside world: its answer, and one step on. *)
Definition ask {A} (f : Env → nat → A) : M A := λ st,
  (Returned (f env (steps st)), tick st).

(** One browser operation: it raises, or it happens and is recorded.  The
    step at which it happens is returned and names the handle it creates. *)
Definition perform (op : Op) (ev : nat → Event) : M nat := λ st,
  if op_raises env (steps st) op then (Raised, tick st)
  else (Returned (steps st), record (ev (steps st)) (tick st)).

(** [MousePatternGenerator.realistic_click]: the wait for the element
    raises on time-out; the callers ignore the value returned. *)
Definition realistic_click (selector : string) : M unit :=
  _ ← perform (Click selector) (λ _, Clicked selector); mret tt.

(** [page.wait_for_selector]: raises on time-out *)
Definition wait_for_selector (selector : string) : M unit :=
  _ ← perform (WaitForSelector selector) (λ _, Appeared selector); mret tt.

(** [page.screenshot(path=prefix_<time>.png)] *)
Definition screenshot (prefix : string) : M unit :=
  _ ← perform (TakeScreenshot prefix) (λ _, ScreenshotTaken prefix); mret tt.

(** [random_delay]: only time passes *)
Definition random_delay : M unit := mret tt.

(** [setup_browser].  The registration of [handle_request] and
    [handle_response] on the new context is synchronous, records nothing
    and cannot raise.  The methods are followed here one call at a time:
    what the response listener does when it is called is [handle_response]
    below; a run of the listener between two steps of another method is
    not part of that method's trace. *)
Definition setup_browser : M unit :=
  _ ← perform PlaywrightStart (λ _, PlaywrightStarted);
  draws ← ask fingerprint_draws;
  fingerprint ← lift (FingerPrintGenerator.generate draws);
  st ← get_state;
  proxy_url ← lift (ProxyRotator.get_proxy_url (proxy_rotator st));
  b ← perform Launch (λ h, BrowserLaunched h proxy_url);
  modify (set_browser (Some b));;
  c ← perform NewContext (λ h, ContextCreated h fingerprint);
  modify (set_context (Some c));;
  _ ← perform ContextInitScript (λ _, ContextScripted);
  p ← perform NewPage PageCreated;
  modify (set_page (Some p));;
  _ ← perform PageInitScript (λ _, PageScripted);
  mret tt.

(** [if self.x: await self.x.close()] *)
Definition close_if_open (h : option nat) (op : Op) (ev : nat → Event) : M unit :=
  match h with
  | Some i => _ ← perform op (λ _, ev i); mret tt
  | None => mret tt
  end.

Definition restart_session : M unit :=
  st ← get_state;
  close_if_open (page st) PageClose PageClosed;;
  close_if_open (context st) ContextClose ContextClosed;;
  close_if_open (browser st) BrowserClose BrowserClosed;;
  modify (set_logged_in false);;
  setup_browser.

(** [self.proxy_rotator.rotate_if_needed()]: one clock reading for the
    elapsed time, a second one when it rotates. *)
Definition rotate_if_needed : M bool := λ st,
  match ProxyRotator.rotate_if_needed (clock env (steps st)) (clock env (S (steps st)))
          (proxy_rotator st) with
  | None => (Raised, tick st)
  | Some (true, r) => (Returned true, set_proxy_rotator r (tick (tick st)))
  | Some (false, r) => (Returned false, set_proxy_rotator r (tick st))
  end.

Definition handle_response (url : string) (status : Z) : M unit :=
  if Text.contains "api" url || Text.contains "ajax" url then
    if (status =? 403)%Z || (status =? 429)%Z then
      rotate_if_needed ≫= λ rotated : bool,
      if rotated then restart_session else mret tt
    else mret tt
  else mret tt.

(** [login]: the flow through the site's forms is left to the outside
    world; what the method does with its outcome is kept. *)
Definition login : M bool :=
  st ← get_state;
  if logged_in st then mret true else
  r ← ask login_result;
  match r with
  | Returned true => modify (set_logged_in true);; mret true
  | Returned false => mret false
  | Raised => raise
  end.

(** [search_test_center]: likewise left to the outside world. *)
Definition search_test_center (test_center : TestCenter) : M bool :=
  r ← ask (λ e n, search_result e n test_center);
  match r with
  | Returned found => mret found
  | Raised => raise
  end.

(** [for time_element in time_elements]: the accumulated list is threaded
    through. *)
Fixpoint scan_times (test_center : TestCenter) (date_str : string)
    (time_elements : list (option string)) (available_slots : list Slot)
  : M (list Slot) :=
  match time_elements with
  | [] => mret available_slots
  | attr :: rest =>
      match attr with
      | None | Some EmptyString => scan_times test_center date_str rest available_slots
      | Some time_str =>
          time ← lift (Parse.hour_minute time_str);
          earliest_hm ← lift (Parse.hour_minute (earliest (time_preference cfg)));
          latest_hm ← lift (Parse.hour_minute (latest (time_preference cfg)));
          let time_value := minutes time in
          let earliest_value := minutes earliest_hm in
          let latest_value := minutes latest_hm in
          if (earliest_value <=? time_value)%Z && (time_value <=? latest_value)%Z
          then scan_times test_center date_str rest
                 (available_slots ++
                    [ {| slot_test_center := center_name test_center;
                         slot_date := date_str;
                         slot_time := time_str;
                         element_selector :=
                           ".SlotPicker-day[data-date='" +:+ date_str +:+
                           "'] + .SlotPicker-day-panel .SlotPicker-time[data-time='" +:+
                           time_str +:+ "']" |} ])
          else scan_times test_center date_str rest available_slots
      end
  end.

(** [for date_element in date_elements] *)
Fixpoint scan_dates (test_center : TestCenter)
    (date_elements : list (option string)) (available_slots : list Slot)
  : M (list Slot) :=
  match date_elements with
  | [] => mret available_slots
  | attr :: rest =>
      let continue := scan_dates test_center rest available_slots in
      match attr with
      | None | Some EmptyString => continue
      | Some date_str =>
          match Calendar.strptime date_str with
          | None => continue
          | Some slot_date =>
              if Calendar.ltb slot_date (start_date (date_range cfg))
                 || Calendar.ltb (end_date (date_range cfg)) slot_date
              then continue
              else if negb (bool_decide (Calendar.weekday slot_date ∈ preferred_days cfg))
              then continue
              else
                realistic_click (".SlotPicker-day[data-date='" +:+ date_str +:+ "']");;
                random_delay;;
                try (wait_for_selector ".SlotPicker-timeSlots";; mret true) (mret false)
                ≫= λ loaded : bool,
                if loaded then
                  time_elements ← ask (λ e n, time_attrs e n test_center date_str);
                  scan_times test_center date_str time_elements available_slots
                  ≫= scan_dates test_center rest
                else continue
          end
      end
  end.

Definition check_available_slots (test_center : TestCenter) : M (list Slot) :=
  try (search_test_center test_center ≫= λ found : bool,
       if negb found then mret [] else
       wait_for_selector ".SlotPicker-days";;
       date_elements ← ask (λ e n, day_attrs e n test_center);
       available_slots ← scan_dates test_center date_elements [];
       emit (Scanned (center_name test_center) available_slots);;
       mret available_slots)
      (screenshot "slots_error";; mret []).

(** [notifier.notify_success]: failures of the channels are caught inside *)
Definition notify_success (center date time : string) : M unit :=
  emit (Notified center date time).

(** The test on the confirmation text *)
Definition confirms (confirmation_text : string) : bool :=
  Text.contains "confirmed" (Text.lower confirmation_text)
  || Text.contains "booked" (Text.lower confirmation_text).

Definition book_slot (slot : Slot) : M bool :=
  emit (BookingAttempt slot);;
  try (realistic_click (element_selector slot);;
       random_delay;;
       realistic_click ".SlotPicker-next";;
       random_delay;;
       realistic_click "#confirm-changes";;
       try (wait_for_selector ".confirmation-block";;
            content ← ask (λ e n, confirmation_text e n slot);
            text ← lift content;
            if confirms text then
              notify_success (slot_test_center slot) (slot_date slot) (slot_time slot);;
              screenshot "booking_confirmation";;
              mret true
            else mret false)
           (mret false))
      (screenshot "booking_error";; mret false).

(** [for test_center in self.config.test_centers]; the result tells
    whether a booking succeeded. *)
Fixpoint check_each (centers : list TestCenter) : M bool :=
  match centers with
  | [] => mret false
  | test_center :: rest =>
      rotate_if_needed;;
      available_slots ← check_available_slots test_center;
      match available_slots with
      | [] => random_delay;; check_each rest
      | _ =>
          earliest_slot ← lift (head (sort_slots available_slots));
          book_slot earliest_slot ≫= λ success : bool,
          if success then mret true
          else random_delay;; check_each rest
      end
  end.

Definition run_monitoring_cycle : M bool :=
  try (st ← get_state;
       (if logged_in st then mret true else login) ≫= λ success : bool,
       if negb success then mret false
       else check_each (test_centers cfg))
      (mret false).

End Booker.

(** *** Vocabulary for statements about traces *)

Definition event_of {A} (ev : A → Event) (h : option A) : list Event :=
  match h with Some i => [ev i] | None => [] end.

(** The closing events a restart owes to a state, in the order of the
    source: page, context, browser. *)
Definition teardown_events (st : State) : list Event :=
  event_of PageClosed (page st) ++ event_of ContextClosed (context st)
  ++ event_of BrowserClosed (browser st).

Definition is_provisioning (ev : Event) : bool :=
  match ev with
  | PlaywrightStarted | BrowserLaunched _ _ | ContextCreated _ _
  | ContextScripted | PageCreated _ | PageScripted => true
  | _ => false
  end.

Definition is_teardown (ev : Event) : bool :=
  match ev with
  | PageClosed _ | ContextClosed _ | BrowserClosed _ => true
  | _ => false
  end.

(** Whether a URL passes the test of the response listener *)
Definition api_like (url : string) : bool :=
  Text.contains "api" url || Text.contains "ajax" url.

(** A slot that passes the three filters of the search criteria for a
    centre: its date string is a date of the range that falls on a preferred
    weekday, and its time string is a time of day inside the window. *)
Definition suitable (cfg : Config) (test_center : TestCenter) (s : Slot) : Prop :=
  slot_test_center s = center_name test_center ∧
  (∃ d, Calendar.strptime (slot_date s) = Some d ∧
        Calendar.le (start_date (date_range cfg)) d ∧
        Calendar.le d (end_date (date_range cfg)) ∧
        Calendar.weekday d ∈ preferred_days cfg) ∧
  (∃ time lo hi,
        Parse.hour_minute (slot_time s) = Some time ∧
        Parse.hour_minute (earliest (time_preference cfg)) = Some lo ∧
        Parse.hour_minute (latest (time_preference cfg)) = Some hi ∧
        (minutes lo ≤ minutes time ≤ minutes hi)%Z).

(** The slots a trace shows an attempt to book, oldest first *)
Definition attempts (evs : list Event) : list Slot :=
  omap (λ ev, match ev with BookingAttempt s => Some s | _ => None end) evs.

(** The notifications a trace shows *)
Definition notifications (evs : list Event) : list (string * string * string) :=
  omap (λ ev, match ev with Notified c d t => Some (c, d, t) | _ => None end) evs.

(** The scans and the booking attempts of a trace, in order *)
Inductive Decision :=
| Scan (center : string) (slots : list Slot)
| Attempt (s : Slot).

Definition decisions (evs : list Event) : list Decision :=
  omap (λ ev, match ev with
              | Scanned c l => Some (Scan c l)
              | BookingAttempt s => Some (Attempt s)
              | _ => None
              end) evs.

(** The slot the cycle books out of one scan: [available_slots[0]] after
    the sort. *)
Definition earliest_of (slots : list Slot) : option Slot := head (sort_slots slots).

(** Two slots with the same sort key *)
Definition same_key (a b : Slot) : Prop :=
  slot_date a = slot_date b ∧ slot_time a = slot_time b.


(** The shape of a cycle that handles one location after the other: a
    location contributes nothing (its scan failed or did not find it), an
    empty scan, or a scan followed at once by the attempt to book the
    earliest slot of that scan; the cycle may stop after any location. *)
Inductive per_location : list TestCenter → list Decision → Prop :=
| pl_stop centers :
    per_location centers []
| pl_silent tc rest ds :
    per_location rest ds → per_location (tc :: rest) ds
| pl_empty tc rest ds :
    per_location rest ds →
    per_location (tc :: rest) (Scan (center_name tc) [] :: ds)
| pl_attempt tc rest slots s ds :
    earliest_of slots = Some s →
    per_location rest ds →
    per_location (tc :: rest) (Scan (center_name tc) slots :: Attempt s :: ds).

(** [st'] continues the trace of [st], and the scans and attempts added
    are [ds]. *)
Definition new_decisions (st st' : State) (ds : list Decision) : Prop :=
  ∃ evs, trace st' = trace st ++ evs ∧ decisions evs = ds.

(** The slots among a list of decisions that were attempted *)
Definition attempted (ds : list Decision) : list Slot :=
  omap (λ d, match d with Attempt s => Some s | Scan _ _ => None end) ds.

(** ** The scenario of the specification

    Criteria 2024-06-01 .. 2024-06-30, Monday and Wednesday, 09:00 to
    12:00; location A shows (06-03, 10:00) and (06-05, 09:30), location B
    shows (06-03, 09:00).  Every browser operation succeeds. *)

Module Scenario.

Definition centre_A : TestCenter := mkTestCenter "1" "A" None.
Definition centre_B : TestCenter := mkTestCenter "2" "B" None.

Definition pool : list ProxyConfig := [mkProxyConfig "10.0.0.1" 8080 "user" "secret" 600].

Definition criteria : Config :=
  mkConfig (mkCredentials "SMITH711215JA9AB" "12345678") [centre_A; centre_B]
    (mkDateRange (Calendar.mkDate 2024 6 1) (Calendar.mkDate 2024 6 30))
    (mkTimePreference "09:00" "12:00") {[ 0%Z; 2%Z ]} pool (30, 60)%Z.

Definition calendar_of (tc : TestCenter) : list (option string) :=
  if String.eqb (center_name tc) "A"
  then [Some "2024-06-03"; Some "2024-06-05"]
  else [Some "2024-06-03"].

Definition times_of (tc : TestCenter) (date_str : string) : list (option string) :=
  if String.eqb (center_name tc) "A"
  then (if String.eqb date_str "2024-06-03" then [Some "10:00"] else [Some "09:30"])
  else [Some "09:00"].

(** The site answers every booking with [reply]. *)
Definition world (reply : string) : Env :=
  mkEnv (λ _, 0%Q) (λ _ _, 0) (λ _ _, false) (λ _, Returned true)
        (λ _ _, Returned true) (λ _, calendar_of) (λ _, times_of)
        (λ _ _, Some reply).

Definition confirming : Env := world "Your test is Booked".
Definition rejecting : Env := world "This slot is no longer available".

(** A session that is up and not logged in *)
Definition start : State :=
  mkState (ProxyRotator.init pool 0) (Some 0) (Some 1) (Some 2) false 3 [].

Definition slot_of (center date time : string) : Slot :=
  mkSlot center date time
    (".SlotPicker-day[data-date='" +:+ date +:+
     "'] + .SlotPicker-day-panel .SlotPicker-time[data-time='" +:+ time +:+ "']").

Definition A_0603_1000 : Slot := slot_of "A" "2024-06-03" "10:00".
Definition A_0605_0930 : Slot := slot_of "A" "2024-06-05" "09:30".

(** A response that signals blocking but does not come from an API-like
    URL, and a state whose rotation has been due for a long time *)
Definition LOGIN_URL : string := "https://driverpracticaltest.dvsa.gov.uk/login".
Definition late : Env :=
  mkEnv (λ _, 1000%Q) (λ _ _, 0) (λ _ _, false) (λ _, Returned true)
        (λ _ _, Returned true) (λ _, calendar_of) (λ _, times_of)
        (λ _ _, None).

End Scenario.

(** ** Sample inputs *)

Module Samples.
Import Dom.

(** A pool of two endpoints *)
Definition pool2 : list ProxyConfig :=
  [ mkProxyConfig "10.0.0.1" 8080 "u" "p" 60;
    mkProxyConfig "10.0.0.2" 8080 "u" "p" 30 ].

(** A licence-number control that already holds some text *)
Definition licence_field : Element :=
  mkElement "input" {[ "id" := "driving-licence-number"; "type" := "text" ]}
            "old" false true.

(** Every [random.random()] yields 0: a mistake at every character. *)
Definition clumsy : Rng := mkRng (λ _, 0%Q) (λ n, n).

(** A login form whose licence-number control carries a bait-like name. *)
Definition bait_field : Element :=
  mkElement "input"
    {[ "id" := "driving-licence-number"; "name" := "robot-check"; "type" := "text" ]}
    "" false true.

Definition reference_field : Element :=
  mkElement "input"
    {[ "id" := "application-reference-number"; "name" := "reference"; "type" := "text" ]}
    "" false true.

Definition bait_form : Page := [bait_field; reference_field].

End Samples.

(** ** Vocabulary for further properties *)

(** [rotate()] called once for each clock reading of [nows], in order;
    [None] when one of the calls raises. *)
Fixpoint rotations (nows : list Q) (r : ProxyRotator.t) : option ProxyRotator.t :=
  match nows with
  | [] => Some r
  | now :: rest => '(_, r') ← ProxyRotator.rotate now r; rotations rest r'
  end.

(** The platform tokens of the three user-agent templates *)
Definition PLATFORMS : list string :=
  [ "Windows NT 10.0; Win64; x64";
    "Macintosh; Intel Mac OS X 10_15_7";
    "X11; Linux x86_64" ].

(** The events of looking at the site: clicks, surfaces that appeared,
    screenshots and the closing line of a scan *)
Definition is_browsing (ev : Event) : bool :=
  match ev with
  | Clicked _ | Appeared _ | ScreenshotTaken _ | Scanned _ _ => true
  | _ => false
  end.

(** The events a monitoring cycle may record *)
Definition is_cycle_event (ev : Event) : bool :=
  match ev with
  | Clicked _ | Appeared _ | ScreenshotTaken _ | Scanned _ _
  | BookingAttempt _ | Notified _ _ _ => true
  | _ => false
  end.

(** [st'] continues [st] in the same session: the three handles and the
    login flag are the same and the events added all satisfy [P]. *)
Definition keeps_session (P : Event → bool) (st st' : State) : Prop :=
  browser st' = browser st ∧ context st' = context st ∧ page st' = page st ∧
  logged_in st' = logged_in st ∧
  ∃ evs, trace st' = trace st ++ evs ∧ forallb P evs = true.

(** The time attributes that are present and not empty *)
Definition present (attrs : list (option string)) : list string :=
  omap (λ a, match a with
             | None | Some EmptyString => None
             | Some t => Some t
             end) attrs.

(** Whether a time string parses to a time inside the window of the
    criteria; [false] as well when one of the three strings does not parse *)
Definition window_contains (cfg : Config) (time_str : string) : bool :=
  match Parse.hour_minute time_str,
        Parse.hour_minute (earliest (time_preference cfg)),
        Parse.hour_minute (latest (time_preference cfg)) with
  | Some time, Some lo, Some hi =>
      (minutes lo <=? minutes time)%Z && (minutes time <=? minutes hi)%Z
  | _, _, _ => false
  end.

(** The events a confirmed booking of [s] adds to the trace *)
Definition confirmed_booking (s : Slot) : list Event :=
  [ BookingAttempt s; Clicked (element_selector s); Clicked ".SlotPicker-next";
    Clicked "#confirm-changes"; Appeared ".confirmation-block";
    Notified (slot_test_center s) (slot_date s) (slot_time s);
    ScreenshotTaken "booking_confirmation" ].

(** ** [DrivingTestBooker.run]: the supervisor *)

Section Supervisor.
Variable env : Env.
Variable cfg : Config.

(** [try: body finally: cleanup]: the cleanup always runs; an exception
    raised by the cleanup replaces the outcome of the body. *)
Definition finally {A} (body : M A) (cleanup : M unit) : M A := λ st,
  let '(r, st') := body st in
  match cleanup st' with
  | (Returned _, st'') => (r, st'')
  | (Raised, st'') => (Raised, st'')
  end.

(** [random.randint(a, b)] raises [ValueError] when [a > b]; the value
    drawn is only slept away. *)
Definition randint (bounds : Z * Z) : M unit :=
  if (bounds.1 <=? bounds.2)%Z then mret tt else raise.

(** [while True] of [run], for at most [fuel] cycles.  [true]: the loop
    was left through [break]; [false]: the loop is still running when the
    fuel is used up. *)
Fixpoint supervise (fuel : nat) : M bool :=
  match fuel with
  | O => mret false
  | S fuel' =>
      try (run_monitoring_cycle env cfg)
          (restart_session env;; mret false)
      ≫= λ success : bool,
      if success then mret true
      else randint (check_interval cfg);; supervise fuel'
  end.

(** The [finally] block of [run] *)
Definition clean_up : M unit :=
  st ← get_state;
  close_if_open env (page st) PageClose PageClosed;;
  st ← get_state;
  close_if_open env (context st) ContextClose ContextClosed;;
  st ← get_state;
  close_if_open env (browser st) BrowserClose BrowserClosed.

(** [run], for at most [fuel] cycles; an interrupt from outside
    ([KeyboardInterrupt]) is not modelled.  [Returned true]: the run is
    over; [Returned false]: it is still looping when the fuel is used up,
    and nothing has been cleaned up yet. *)
Definition run (fuel : nat) : M bool := λ st,
  match (setup_browser env;; supervise fuel) st with
  | (Returned false, st') => (Returned false, st')
  | (r, st') => finally (λ s, (r, s)) clean_up st'
  end.

End Supervisor.

(** ** [CloudflareBypass.handle_cf_challenge]

    Here the text of an exception matters, so an outcome carries it. *)

Module CloudflareBypass.

(** A call returns a value or raises an exception [e]; [msg] is [str(e)]. *)
Inductive Outcome (A : Type) : Type :=
| Ok (a : A)
| Error (msg : string).
Arguments Ok {A} a.
Arguments Error {A} msg.

(** What the page does during one call *)
Record Page := mkPage {
  detection : Outcome bool;
      (* [wait_for_selector] for the challenge marker, 5 s: the element is
         there ([Ok true]), nothing is returned ([Ok false]), or it raises *)
  resolution : Outcome unit;
      (* [wait_for_function]: the marker went away or the content came *)
  snapshot : Outcome unit
      (* [page.screenshot] *)
}.

Definition FAILED : string := "Failed to pass Cloudflare challenge".

(** The body of the outer [try] *)
Definition challenge (p : Page) : Outcome bool :=
  match detection p with
  | Error msg => Error msg
  | Ok false => Ok false
  | Ok true =>
      match resolution p with
      | Ok _ => Ok true
      | Error _ =>
          match snapshot p with
          | Error msg => Error msg
          | Ok _ => Error FAILED
          end
      end
  end.

Definition handle_cf_challenge (p : Page) : Outcome bool :=
  match challenge p with
  | Error msg => if Text.contains "Timeout" msg then Ok false else Error msg
  | r => r
  end.

End CloudflareBypass.

(** ** The flows through the site's forms: [login],
    [navigate_to_test_search] and [search_test_center]

    The methods above leave these three to the outside world; here they
    are followed step by step.  Each call into the browser, the mouse
    helper, the typing helper or the captcha solver either raises or
    returns; the calls that returned are logged.  What the page shows to
    a query is supplied from outside.  Queries ([query_selector],
    [query_selector_all], [get_attribute], [text_content]) are taken not
    to raise; delays and logging are left out.  Unlike the outcome
    oracles of the cycle above, these flows show the login that a search
    on a session that is not logged in makes on its way to the search
    page. *)

Module Site.

Definition BASE_URL : string := "https://www.gov.uk/book-pupil-driving-test".
Definition LOGIN_URL : string := "https://driverpracticaltest.dvsa.gov.uk/login".
Definition BOOKING_URL : string := "https://driverpracticaltest.dvsa.gov.uk/manage".

(** A call that returned.  [realistic_click] and [type_like_human] also
    return when they find no element or no bounding box; their callers
    here ignore what they return. *)
Inductive Action :=
| Navigate (url : string)                      (* [page.goto] *)
| ClickAt (selector : string)                  (* [realistic_click] *)
| ClickLink (position : nat)
      (* [realistic_click] given the result link at this position *)
| TypeText (selector text : string)            (* [type_like_human] *)
| ClearField (selector : string)
      (* [click(click_count=3)] on the element, then [press("Backspace")] *)
| AwaitSelector (selector : string)            (* [page.wait_for_selector] *)
| ScanHoneypots                                (* [identify_and_avoid_honeypots] *)
| SolveCaptcha (site_key : option string) (url : string)
      (* [solve_recaptcha] *)
| InjectToken (token : option string)          (* [inject_recaptcha_solution] *)
| Snapshot (prefix : string).                  (* [page.screenshot] *)

(** The outside world; every answer depends on the number of steps made
    so far. *)
Record World := mkWorld {
  fails : nat → Action → bool;                 (* the call raises *)
  challenge_page : nat → CloudflareBypass.Page;
      (* what [handle_cf_challenge] meets *)
  found : nat → string → bool;                 (* [query_selector] finds an element *)
  data_sitekey : nat → option string;          (* [get_attribute('data-sitekey')] *)
  token : nat → option string;
      (* [result.get('code')] of the solver's answer *)
  link_texts : nat → list (option string)
      (* [text_content] of the links of the result list *)
}.

(** The login flag of the booker, the number of steps made and the calls
    that returned, oldest first *)
Record Session := mkSession {
  logged_in : bool;
  steps : nat;
  log : list Action
}.

Definition SiteM (A : Type) : Type := Session → Res A * Session.

#[global] Instance SiteM_ret : MRet SiteM := λ A a s, (Returned a, s).
#[global] Instance SiteM_bind : MBind SiteM := λ A B f m s,
  match m s with
  | (Returned a, s') => f a s'
  | (Raised, s') => (Raised, s')
  end.

Definition fail {A} : SiteM A := λ s, (Raised, s).

(** [try: body except Exception: handler] *)
Definition attempt {A} (body handler : SiteM A) : SiteM A := λ s,
  match body s with
  | (Raised, s') => handler s'
  | r => r
  end.

Definition next (s : Session) : Session :=
  mkSession (logged_in s) (S (steps s)) (log s).

Section Flows.
Variable w : World.
Variable credentials : Credentials.
Variable test_type : string.                   (* [self.config.test_type.value] *)

(** A call: it raises, or it returns and is logged. *)
Definition act (a : Action) : SiteM unit := λ s,
  if fails w (steps s) a then (Raised, next s)
  else (Returned tt, mkSession (logged_in s) (S (steps s)) (log s ++ [a])).

(** A query: its answer, and one step on. *)
Definition query {A} (f : World → nat → A) : SiteM A := λ s,
  (Returned (f w (steps s)), next s).

Definition handle_cf_challenge : SiteM bool := λ s,
  match CloudflareBypass.handle_cf_challenge (challenge_page w (steps s)) with
  | CloudflareBypass.Ok b => (Returned b, next s)
  | CloudflareBypass.Error _ => (Raised, next s)
  end.

(** [self.logged_in = True] *)
Definition set_logged_in : SiteM unit := λ s,
  (Returned tt, mkSession true (steps s) (log s)).

Definition login : SiteM bool := λ s,
  if logged_in s then (Returned true, s) else
  attempt
    (act (Navigate BASE_URL);;
     handle_cf_challenge;;
     act (ClickAt "a:text('Start now')");;
     act (Navigate LOGIN_URL);;
     handle_cf_challenge;;
     act ScanHoneypots;;
     act (TypeText "#driving-licence-number" (license_number credentials));;
     act (TypeText "#application-reference-number" (application_reference credentials));;
     query (λ w n, found w n "[data-sitekey]") ≫= λ recaptcha_element : bool,
     (if recaptcha_element then
        site_key ← query data_sitekey;
        act (SolveCaptcha site_key LOGIN_URL);;
        token ← query token;
        act (InjectToken token)
      else mret tt);;
     act (ClickAt "#booking-login");;
     attempt
       (act (AwaitSelector "#find-test-centres, .error-summary");;
        query (λ w n, found w n ".error-summary") ≫= λ error : bool,
        if error then mret false
        else set_logged_in;; mret true)
       (mret false))
    (act (Snapshot "login_error");; mret false)
    s.

Definition navigate_to_test_search : SiteM bool := λ s,
  ((if logged_in s then mret true else login) ≫= λ success : bool,
   if negb success then mret false else
   attempt
     (query (λ w n, found w n "#find-test-centres") ≫= λ on_page : bool,
      (if on_page then mret tt
       else act (Navigate BOOKING_URL);; handle_cf_challenge;; mret tt);;
      query (λ w n, found w n ("a:text-matches('" +:+ test_type +:+ "', 'i')"))
      ≫= λ test_type_button : bool,
      (if test_type_button
       then act (ClickAt ("a:text-matches('" +:+ test_type +:+ "', 'i')"))
       else mret tt);;
      act (AwaitSelector "#test-centres-near-you");;
      mret true)
     (act (Snapshot "navigate_error");; mret false))
    s.

(** [for link in result_links]: the position of the link is counted from
    [position]; a link without text makes [text.lower()] raise. *)
Fixpoint choose_link (name : string) (texts : list (option string)) (position : nat)
  : SiteM bool :=
  match texts with
  | [] => mret false
  | None :: _ => fail
  | Some text :: rest =>
      if Text.contains (Text.lower name) (Text.lower text)
      then act (ClickLink position);; mret true
      else choose_link name rest (S position)
  end.

Definition search_test_center (test_center : TestCenter) : SiteM bool :=
  attempt
    (query (λ w n, found w n "#test-centres-near-you") ≫= λ on_page : bool,
     (if on_page then mret tt else navigate_to_test_search;; mret tt);;
     act (AwaitSelector "#test-centres-near-you");;
     act (ClearField "#test-centres-near-you");;
     act (TypeText "#test-centres-near-you" (center_name test_center));;
     act (ClickAt "#test-centres-submit");;
     act (AwaitSelector ".test-centre-results");;
     result_links ← query link_texts;
     choose_link (center_name test_center) result_links 0)
    (act (Snapshot "search_error");; mret false).

End Flows.

End Site.

(** A computation [grows] the log by actions that satisfy [P], and never
    clears the login flag. *)
Definition grows (P : Site.Action → Prop) {A} (m : Site.SiteM A) : Prop :=
  ∀ s r s', m s = (r, s') →
    (Site.logged_in s = true → Site.logged_in s' = true) ∧
    ∃ added, Site.log s' = Site.log s ++ added ∧ Forall P added.

Definition not_a_link (a : Site.Action) : Prop :=
  ∀ position, a ≠ Site.ClickLink position.

(** The actions of a login that gets through, in order; [captcha] is what
    the solving of a captcha adds. *)
Definition login_actions (credentials : Credentials) (captcha : list Site.Action)
  : list Site.Action :=
  [Site.Navigate Site.BASE_URL;
   Site.ClickAt "a:text('Start now')";
   Site.Navigate Site.LOGIN_URL;
   Site.ScanHoneypots;
   Site.TypeText "#driving-licence-number" (license_number credentials);
   Site.TypeText "#application-reference-number" (application_reference credentials)]
  ++ captcha ++
  [Site.ClickAt "#booking-login";
   Site.AwaitSelector "#find-test-centres, .error-summary"].

Definition matches_name (name text : string) : bool :=
  Text.contains (Text.lower name) (Text.lower text).

(** The link at position [k] is the first of [texts] whose text contains
    the name, letter case apart; all links before it have a text. *)
Definition first_match (name : string) (texts : list (option string)) (k : nat)
  : Prop :=
  (∃ text, texts !! k = Some (Some text) ∧ matches_name name text = true) ∧
  ∀ j, (j < k)%nat →
    ∃ text, texts !! j = Some (Some text) ∧ matches_name name text = false.

(** What one search may leave behind: [True] and, at the end of the added
    calls, a click on the first matching link of the list read; or
    another outcome and no click on a link. *)
Definition searched (w : Site.World) (name : string)
  (s : Site.Session) (r : Res bool) (s' : Site.Session) : Prop :=
  ∃ added, Site.log s' = Site.log s ++ added ∧
    ((r = Returned true ∧
      ∃ before n k, added = before ++ [Site.ClickLink k] ∧
        Forall not_a_link before ∧
        first_match name (Site.link_texts w n) k) ∨
     (r ≠ Returned true ∧ Forall not_a_link added)).

Module SiteSamples.
Import Site.

Definition applicant : Credentials := mkCredentials "SMITH711215JA9AB" "12345678".
Definition wood_green : TestCenter := mkTestCenter "7" "Wood Green" None.

(** No challenge on the page *)
Definition clear_page : CloudflareBypass.Page :=
  CloudflareBypass.mkPage
    (CloudflareBypass.Ok false) (CloudflareBypass.Ok tt) (CloudflareBypass.Ok tt).

(** A site on which every call returns.  The login form carries a captcha;
    no other element that is asked for is found. *)
Definition calm : World :=
  mkWorld (λ _ _, false) (λ _, clear_page)
    (λ _ selector, String.eqb selector "[data-sitekey]")
    (λ _, Some "6LcX5wkTAAAA") (λ _, Some "03AGdBq2")
    (λ _, [Some "Barnet (London)"; Some "WOOD GREEN (London)"; None]).

(** A site on which every call raises *)
Definition stormy : World :=
  mkWorld (λ _ _, true) (λ _, clear_page) (λ _ _, false)
    (λ _, None) (λ _, None) (λ _, []).

Definition fresh : Session := mkSession false 0 [].

End SiteSamples.

(** ** Further sample data *)

Module Cases.
Import Scenario.

(** [start], logged in *)
Definition signed_in : State :=
  mkState (ProxyRotator.init pool 0) (Some 0) (Some 1) (Some 2) true 3 [].

(** A session whose rotator has no proxy *)
Definition no_proxy : State :=
  mkState (ProxyRotator.init [] 0) None None None false 0 [].

(** The criteria with the time window turned round *)
Definition inverted_window : Config :=
  mkConfig (mkCredentials "SMITH711215JA9AB" "12345678") [centre_A; centre_B]
    (mkDateRange (Calendar.mkDate 2024 6 1) (Calendar.mkDate 2024 6 30))
    (mkTimePreference "12:00" "09:00") {[ 0%Z; 2%Z ]} pool (30, 60)%Z.

(** The criteria with the waiting interval turned round *)
Definition inverted_interval : Config :=
  mkConfig (mkCredentials "SMITH711215JA9AB" "12345678") [centre_A; centre_B]
    (mkDateRange (Calendar.mkDate 2024 6 1) (Calendar.mkDate 2024 6 30))
    (mkTimePreference "09:00" "12:00") {[ 0%Z; 2%Z ]} pool (60, 30)%Z.

(** The site confirms every booking, but the screenshot of the
    confirmation raises. *)
Definition shaky : Env :=
  mkEnv (λ _, 0%Q) (λ _ _, 0)
        (λ _ op, match op with
                 | TakeScreenshot prefix => String.eqb prefix "booking_confirmation"
                 | _ => false
                 end)
        (λ _, Returned true) (λ _ _, Returned true)
        (λ _, calendar_of) (λ _, times_of)
        (λ _ _, Some "Your test is Booked").

(** Closing the page raises; every other call returns. *)
Definition stuck : Env :=
  mkEnv (λ _, 0%Q) (λ _ _, 0)
        (λ _ op, match op with PageClose => true | _ => false end)
        (λ _, Returned true) (λ _ _, Returned true)
        (λ _, calendar_of) (λ _, times_of) (λ _ _, None).

(** The click on the slot (06-03, 10:00) of A raises, and so does the
    screenshot of a booking error; every other call returns. *)
Definition slippery : Env :=
  mkEnv (λ _, 0%Q) (λ _ _, 0)
        (λ _ op, match op with
                 | Click selector => String.eqb selector (element_selector A_0603_1000)
                 | TakeScreenshot prefix => String.eqb prefix "booking_error"
                 | _ => false
                 end)
        (λ _, Returned true) (λ _ _, Returned true)
        (λ _, calendar_of) (λ _, times_of)
        (λ _ _, Some "Your test is Booked").

(** The site rejects the bookings of the first cycle and confirms those
    made later. *)
Definition rejecting_once : Env :=
  mkEnv (λ _, 0%Q) (λ _ _, 0) (λ _ _, false) (λ _, Returned true)
        (λ _ _, Returned true) (λ _, calendar_of) (λ _, times_of)
        (λ n _, if (n <? 30)%nat then Some "This slot is no longer available"
                else Some "Your test is Booked").

(** The calendar of every centre is empty. *)
Definition barren : Env :=
  mkEnv (λ _, 0%Q) (λ _ _, 0) (λ _ _, false) (λ _, Returned true)
        (λ _ _, Returned true) (λ _ _, []) (λ _, times_of) (λ _ _, None).

End Cases.

(* ===================================================================== *)
(** * Theorems                                                            *)
(* ===================================================================== *)

Section ProxyRotatorFacts.
Import ProxyRotator Samples.

Lemma get_current_proxy_is_Some r :
  current_index r < length (proxies r) → is_Some (get_current_proxy r).
Proof. apply lookup_lt_is_Some_2. Qed.

Lemma rotate_spec now r :
  current_index r < length (proxies r) →
  ∃ p, rotate now r =
       Some (p, {| proxies := proxies r;
                   current_index := (current_index r + 1) mod length (proxies r);
                   last_rotation_time := now |}).
Proof.
  intros Hlt. unfold rotate.
  destruct (length (proxies r)) as [|n] eqn:Hlen; [lia|].
  set (r' := mk _ _ _).
  destruct (get_current_proxy_is_Some r') as [p Hp].
  { subst r'; cbn [current_index proxies]. rewrite Hlen.
    apply Nat.mod_upper_bound. lia. }
  exists p. now rewrite Hp.
Qed.

Lemma rotate_if_needed_not_due (r : t) (now now' : Q) (p : ProxyConfig) :
  get_current_proxy r = Some p →
  (elapsed_time now r < inject_Z (rotation_interval p))%Q →
  rotate_if_needed now now' r = Some (false, r).
Proof.
  intros Hp Hel. unfold rotate_if_needed. rewrite Hp. simpl.
  destruct (Qle_bool _ _) eqn:Hle; [|reflexivity].
  apply Qle_bool_iff in Hle. now apply Qlt_not_le in Hel.
Qed.

Lemma rotate_if_needed_due (r : t) (now now' : Q) (p : ProxyConfig) :
  current_index r < length (proxies r) →
  get_current_proxy r = Some p →
  ¬ (elapsed_time now r < inject_Z (rotation_interval p))%Q →
  rotate_if_needed now now' r =
  Some (true, {| proxies := proxies r;
                 current_index := (current_index r + 1) mod length (proxies r);
                 last_rotation_time := now' |}).
Proof.
  intros Hlt Hp Hel. unfold rotate_if_needed. rewrite Hp. simpl.
  destruct (Qle_bool _ _) eqn:Hle.
  - destruct (rotate_spec now' r Hlt) as [q Hq]. now rewrite Hq.
  - exfalso. apply Hel. apply Qnot_le_lt. intros Hc.
    apply Qle_bool_iff in Hc. congruence.
Qed.

(** C5 — [rotate_if_needed] on a pool whose current index is in range:
    while the elapsed time is strictly below the current endpoint's
    interval it returns [False] and changes nothing; otherwise it returns
    [True], moves the index to the cyclic successor (the last endpoint is
    followed by the first) and sets the rotation clock to the new reading. *)
Theorem rotate_if_needed_cyclic (r : t) (now now' : Q) :
  current_index r < length (proxies r) →
  ∃ p, get_current_proxy r = Some p ∧
    ((elapsed_time now r < inject_Z (rotation_interval p))%Q →
       rotate_if_needed now now' r = Some (false, r)) ∧
    (¬ (elapsed_time now r < inject_Z (rotation_interval p))%Q →
       ∃ r', rotate_if_needed now now' r = Some (true, r') ∧
             proxies r' = proxies r ∧
             current_index r' = (current_index r + 1) mod length (proxies r) ∧
             (S (current_index r) = length (proxies r) → current_index r' = 0) ∧
             (S (current_index r) < length (proxies r) →
                current_index r' = S (current_index r)) ∧
             last_rotation_time r' = now').
Proof.
  intros Hlt.
  destruct (get_current_proxy_is_Some r Hlt) as [p Hp].
  exists p. split; [exact Hp|]. unfold rotate_if_needed. rewrite Hp. simpl.
  split.
  - intros Hel.
    destruct (Qle_bool _ _) eqn:Hle; [|reflexivity].
    apply Qle_bool_iff in Hle. now apply Qlt_not_le in Hel.
  - intros Hel.
    destruct (Qle_bool _ _) eqn:Hle.
    + destruct (rotate_spec now' r Hlt) as [q Hq]. rewrite Hq. simpl.
      eexists. split; [reflexivity|]. simpl.
      repeat split.
      * intros Hlast. rewrite Nat.add_1_r, Hlast. apply Nat.Div0.mod_same.
      * intros Hnext. rewrite Nat.add_1_r. now apply Nat.mod_small.
    + exfalso. apply Hel. apply Qnot_le_lt. intros Hc.
      apply Qle_bool_iff in Hc. congruence.
Qed.

Lemma rotate_if_needed_cyclic_witness :
  current_index (mk pool2 1 70) < length (proxies (mk pool2 1 70)) ∧
  ∃ r', rotate_if_needed 100 101 (mk pool2 1 70) = Some (true, r') ∧
        current_index r' = 0 ∧ last_rotation_time r' = 101%Q.
Proof.
  assert (Hin : current_index (mk pool2 1 70) < length (proxies (mk pool2 1 70)))
    by (simpl; lia).
  split; [exact Hin|].
  destruct (rotate_if_needed_cyclic (mk pool2 1 70) 100 101 Hin)
    as (p & Hp & _ & Hdue).
  injection Hp as <-.
  destruct Hdue as (r' & Hr & _ & _ & Hwrap & _ & Hclock).
  - vm_compute. discriminate.
  - exists r'. split; [exact Hr|]. split; [apply Hwrap; reflexivity|exact Hclock].
Defined.

End ProxyRotatorFacts.

Section RandomFacts.
Context {A : Type}.

Lemma choice_elem_of (draw : nat) (seq : list A) (x : A) :
  choice draw seq = Some x → x ∈ seq.
Proof.
  destruct seq as [|a seq]; [discriminate|].
  unfold choice. intros H. eapply list_elem_of_lookup_2, H.
Qed.

Lemma choice_is_Some (draw : nat) (seq : list A) :
  seq ≠ [] → is_Some (choice draw seq).
Proof.
  destruct seq as [|a seq]; [congruence|]. intros _.
  unfold choice. apply lookup_lt_is_Some_2.
  apply Nat.mod_upper_bound. simpl; lia.
Qed.

End RandomFacts.

Section FingerPrintFacts.
Import FingerPrintGenerator.

Example generate_first :
  generate (λ _, 0) =
  Some (mkFingerprint
          "Mozilla/5.0 (Windows NT 10.0; Win64; x64) AppleWebKit/537.36 (KHTML, like Gecko) Chrome/112.0.5615.49 Safari/537.36"
          (mkViewport 1366 768) 1 true "en-GB" "Europe/London").
Proof. reflexivity. Qed.



End FingerPrintFacts.

Section TypingFacts.
Import Dom Samples.

Lemma drop_last_snoc (s : string) (c : ascii) :
  drop_last (s +:+ String c "") = s.
Proof.
  induction s as [|a s IH]; [reflexivity|].
  change (drop_last (String a (s +:+ String c "")) = String a s).
  cbn [drop_last]. rewrite IH. destruct s; reflexivity.
Qed.

Lemma append_assoc_char (s : string) (c : ascii) (t : string) :
  (s +:+ String c "") +:+ t = s +:+ String c t.
Proof.
  induction s as [|a s IH]; [reflexivity|].
  change (String a ((s +:+ String c "") +:+ t) = String a (s +:+ String c t)).
  now rewrite IH.
Qed.

Lemma append_empty_r (s : string) : s +:+ "" = s.
Proof.
  induction s as [|a s IH]; [reflexivity|].
  change (String a (s +:+ "") = String a s). now rewrite IH.
Qed.

(** A wrong character followed by one Backspace leaves the control as it
    was. *)
Lemma mistake_no_net_effect (w : ascii) (e : Element) :
  selected e = false → backspace (type_char w e) = e.
Proof.
  destruct e as [tg at_ v sl vis]; simpl. intros ->.
  unfold type_char, backspace, set_value; simpl.
  now rewrite drop_last_snoc.
Qed.

Lemma type_char_value (c : ascii) (e : Element) :
  selected e = false →
  type_char c e = set_value (value e +:+ String c "") false e.
Proof. unfold type_char. now intros ->. Qed.

Lemma random_choice_is_Some {A} (seq : list A) (g : Rng) :
  seq ≠ [] → is_Some (random_choice seq g).1.
Proof. intros H. now apply choice_is_Some. Qed.

Lemma type_chars_appends (text : string) :
  ∀ (g : Rng) (e : Element),
    selected e = false →
    ∃ g', type_chars text g e = Some (set_value (value e +:+ text) false e, g').
Proof.
  induction text as [|char rest IH]; intros g e Hsel.
  - exists g. simpl. rewrite append_empty_r.
    destruct e; simpl in *; now subst.
  - cbn [type_chars]. destruct (random g) as [x g1].
    assert (Hstep : ∀ g2, ∃ g',
               (let '(_, g3) := random g2 in type_chars rest g3 (type_char char e))
               = Some (set_value (value e +:+ String char rest) false e, g')).
    { intros g2. destruct (random g2) as [y g3].
      destruct (IH g3 (type_char char e)) as [g' Hg'].
      - now rewrite type_char_value.
      - exists g'. rewrite Hg', type_char_value by assumption.
        cbn [set_value value tag attrs is_visible].
        now rewrite append_assoc_char. }
    destruct (Qlt_bool x (3 # 100)).
    + pose proof (random_choice_is_Some WRONG_CHARS g1) as Hw.
      destruct (random_choice WRONG_CHARS g1) as [w g2].
      destruct Hw as [c Hc]; [discriminate|]. simpl in Hc. subst w.
      cbn [mbind option_bind].
      rewrite mistake_no_net_effect by assumption. apply Hstep.
    + cbn [mbind option_bind]. apply Hstep.
Qed.

Lemma find_first_lookup (s : Selector) (pg : Page) (i : nat) :
  find_first s pg = Some i → ∃ e, pg !! i = Some e ∧ matches s e = true.
Proof.
  revert i. induction pg as [|a pg IH]; intros i; [discriminate|].
  simpl. destruct (matches s a) eqn:Hm.
  - intros [= <-]. eauto.
  - destruct (find_first s pg) as [j|]; [|discriminate].
    intros [= <-]. apply IH. reflexivity.
Qed.

Lemma matches_set_value (s : Selector) (v : string) (b : bool) (e : Element) :
  matches s (set_value v b e) = matches s e.
Proof. reflexivity. Qed.

Lemma find_first_insert (s : Selector) (pg : Page) (i : nat) (e' : Element) :
  find_first s pg = Some i → matches s e' = true →
  find_first s (<[i := e']> pg) = Some i.
Proof.
  revert i. induction pg as [|a pg IH]; intros i Hf He; [discriminate|].
  cbn [find_first] in Hf. destruct (matches s a) eqn:Hm.
  - injection Hf as <-.
    change (<[0 := e']> (a :: pg)) with (e' :: pg).
    cbn [find_first]. now rewrite He.
  - destruct (find_first s pg) as [j|] eqn:Hj; [|discriminate].
    injection Hf as <-.
    change (<[S j := e']> (a :: pg)) with (a :: <[j := e']> pg).
    cbn [find_first]. rewrite Hm. now rewrite (IH j eq_refl He).
Qed.

(** C10 — whatever the random source yields, when the selector designates
    a visible control, [type_like_human] returns [True] and leaves that
    control holding exactly the text to type; no other control changes
    and the selector still designates the same control.  The mistake branch
    has no net effect: a wrong character followed by its one Backspace
    leaves the control as it was before the correct character is typed. *)
Theorem type_like_human_final_text
    (s : Selector) (text : string) (g : Rng) (pg : Page) (i : nat) (e : Element) :
  find_first s pg = Some i → pg !! i = Some e → is_visible e = true →
  (∃ pg' g',
     type_like_human s text g pg = (Returned true, pg', g') ∧
     pg' = <[i := set_value text false e]> pg ∧
     (∃ e', pg' !! i = Some e' ∧ value e' = text) ∧
     (∀ j, j ≠ i → pg' !! j = pg !! j) ∧
     find_first s pg' = Some i) ∧
  (∀ wrong_char field,
     selected field = false → backspace (type_char wrong_char field) = field).
Proof.
  intros Hfind Hlook Hvis.
  split; [|intros w f Hf; now apply mistake_no_net_effect].
  unfold type_like_human.
  rewrite Hfind, Hlook, Hvis. cbn [negb].
  destruct (type_chars_appends text g (backspace (triple_click e))) as [g' Hg'].
  { unfold backspace, triple_click. reflexivity. }
  rewrite Hg'.
  assert (Heq : set_value (value (backspace (triple_click e)) +:+ text) false
                  (backspace (triple_click e)) = set_value text false e)
    by reflexivity.
  rewrite Heq.
  exists (<[i := set_value text false e]> pg), g'.
  split; [reflexivity|]. split; [reflexivity|].
  split; [|split].
  - exists (set_value text false e). split; [|reflexivity].
    apply list_lookup_insert_eq. eapply lookup_lt_Some, Hlook.
  - intros j Hj. now apply list_lookup_insert_ne.
  - apply find_first_insert; [assumption|].
    rewrite matches_set_value.
    destruct (find_first_lookup _ _ _ Hfind) as (e0 & He0 & Hm). congruence.
Qed.

Lemma type_like_human_final_text_witness :
  ∃ pg' g',
    type_like_human (by_id "driving-licence-number") "SMITH" clumsy [licence_field]
      = (Returned true, pg', g') ∧
    pg' = [set_value "SMITH" false licence_field].
Proof.
  destruct (type_like_human_final_text (by_id "driving-licence-number") "SMITH"
              clumsy [licence_field] 0 licence_field)
    as [(pg' & g' & Hrun & Hpg & _) _].
  - vm_compute. reflexivity.
  - reflexivity.
  - reflexivity.
  - exists pg', g'. split; [exact Hrun|exact Hpg].
Defined.

End TypingFacts.

Section HoneypotFacts.
Import Dom HoneypotDetector Samples.

(** The scan has no result besides its log: it cannot influence what is
    typed afterwards. *)
Lemma fill_login_form_ignores_scan (lic ref : string) (g : Rng) (pg : Page) :
  (fill_login_form lic ref g pg).1 =
  match type_like_human (by_id "driving-licence-number") lic g pg with
  | (Returned _, pg', g') =>
      type_like_human (by_id "application-reference-number") ref g' pg'
  | r => r
  end.
Proof.
  unfold fill_login_form.
  destruct (type_like_human (by_id "driving-licence-number") lic g pg)
    as [[[b|] pg'] g']; reflexivity.
Qed.

(** C7 — evaluation at a failing input: on [bait_form] the licence-number
    control is flagged by the scan (its name contains "bot") and the scan
    logs it, yet the typing primitive then writes the licence number into
    that very control. *)
Theorem honeypot_field_is_typed_into :
  is_honeypot bait_field = true ∧
  identify_and_avoid_honeypots bait_form = ["Potential honeypot detected: robot-check"] ∧
  ∃ g', fill_login_form "SMITH711215JA9AB" "12345678" clumsy bait_form =
        (Returned true,
         [ set_value "SMITH711215JA9AB" false bait_field;
           set_value "12345678" false reference_field ],
         g',
         ["Potential honeypot detected: robot-check"]) ∧
        is_honeypot (set_value "SMITH711215JA9AB" false bait_field) = true.
Proof.
  split; [vm_compute; reflexivity|].
  split; [vm_compute; reflexivity|].
  eexists. split; [vm_compute; reflexivity|vm_compute; reflexivity].
Qed.

End HoneypotFacts.

Section SessionFacts.
Variable env : Env.

Lemma bind_run {A B} (m : M A) (f : A → M B) (st : State) :
  (m ≫= f) st =
  match m st with
  | (Returned a, st') => f a st'
  | (Raised, st') => (Raised, st')
  end.
Proof. reflexivity. Qed.

(** A closing step either happens and is recorded, or raises and records
    nothing; it touches nothing else. *)
Lemma close_if_open_run (h : option nat) (op : Op) (ev : nat → Event) (st : State) :
  ∃ r st', close_if_open env h op ev st = (r, st') ∧
    page st' = page st ∧ context st' = context st ∧ browser st' = browser st ∧
    logged_in st' = logged_in st ∧ proxy_rotator st' = proxy_rotator st ∧
    ((r = Returned tt ∧ trace st' = trace st ++ event_of ev h) ∨
     (r = Raised ∧ trace st' = trace st)).
Proof.
  destruct h as [i|]; unfold close_if_open.
  - rewrite bind_run. unfold perform.
    destruct (op_raises env (steps st) op); do 2 eexists;
      (split; [reflexivity|]); cbn; intuition.
  - do 2 eexists. split; [reflexivity|]. cbn.
    rewrite app_nil_r. intuition.
Qed.

Lemma close_if_open_raises (h : option nat) (op : Op) (ev : nat → Event)
    (st st' : State) :
  close_if_open env h op ev st = (Raised, st') →
  h ≠ None ∧ op_raises env (steps st) op = true.
Proof.
  destruct h as [i|]; unfold close_if_open; [|discriminate].
  rewrite bind_run. unfold perform.
  destruct (op_raises env (steps st) op); [auto|discriminate].
Qed.

(** Provisioning records provisioning events only, never touches the login
    flag, and when it returns it has recorded the six steps in order. *)
Lemma setup_browser_run (st : State) :
  ∃ r st' pv, setup_browser env st = (r, st') ∧
    trace st' = trace st ++ pv ∧
    forallb is_provisioning pv = true ∧
    logged_in st' = logged_in st ∧
    (r = Returned tt →
       ∃ b c p url fp,
         pv = [PlaywrightStarted; BrowserLaunched b url; ContextCreated c fp;
               ContextScripted; PageCreated p; PageScripted] ∧
         browser st' = Some b ∧ context st' = Some c ∧ page st' = Some p).
Proof.
  unfold setup_browser.
  repeat first
    [ rewrite bind_run
    | progress unfold perform, ask, get_state, modify, lift, raise
    | progress cbn [steps tick record trace proxy_rotator set_browser set_context
                    set_page logged_in browser context page mret M_ret]
    | match goal with
      | |- context [if op_raises ?e ?n ?o then _ else _] =>
          destruct (op_raises e n o)
      | |- context [match FingerPrintGenerator.generate ?d with _ => _ end] =>
          destruct (FingerPrintGenerator.generate d)
      | |- context [match ProxyRotator.get_proxy_url ?r with _ => _ end] =>
          destruct (ProxyRotator.get_proxy_url r)
      end ];
  do 3 eexists; (split; [reflexivity|]);
  cbn [trace logged_in browser context page tick record set_browser set_context
       set_page];
  (split; [rewrite <- ?app_assoc; first [reflexivity | symmetry; apply app_nil_r]|]);
  (split; [reflexivity|]); (split; [reflexivity|]);
  intros Hr; try discriminate Hr; repeat eexists.
Qed.

(** C9 (amended) — every restart closes what is open in the order page,
    context, browser, and starts provisioning only after the last of
    them.  When the teardown is complete the login flag is false from then
    on, whether or not provisioning succeeds; a restart that returns has
    closed all three and recorded the provisioning steps in order.  When
    the teardown is not complete, one of the three closing operations
    raised: the restart ends there with that exception, what was closed
    before was closed in order, nothing is provisioned and the login flag
    keeps the value it had. *)
Theorem restart_session_ordered (st : State) :
  ∃ r st' td pv,
    restart_session env st = (r, st') ∧
    trace st' = trace st ++ td ++ pv ∧
    td `prefix_of` teardown_events st ∧
    forallb is_teardown td = true ∧
    forallb is_provisioning pv = true ∧
    (pv ≠ [] → td = teardown_events st) ∧
    (td = teardown_events st → logged_in st' = false) ∧
    (r = Returned tt →
       td = teardown_events st ∧ logged_in st' = false ∧
       ∃ b c p url fp,
         pv = [PlaywrightStarted; BrowserLaunched b url; ContextCreated c fp;
               ContextScripted; PageCreated p; PageScripted] ∧
         browser st' = Some b ∧ context st' = Some c ∧ page st' = Some p) ∧
    (td ≠ teardown_events st →
       r = Raised ∧ pv = [] ∧ logged_in st' = logged_in st ∧
       ∃ n op, op ∈ [PageClose; ContextClose; BrowserClose] ∧
               op_raises env n op = true) ∧
    ((∀ n op, op ∈ [PageClose; ContextClose; BrowserClose] →
              op_raises env n op = false) →
       td = teardown_events st).
Proof.
  assert (Htd : ∀ h (ev : nat → Event),
             (∀ i, is_teardown (ev i) = true) →
             forallb is_teardown (event_of ev h) = true).
  { intros [i|] ev Hev; cbn; [now rewrite Hev|reflexivity]. }
  assert (Hop : ∀ op, op ∈ [PageClose; ContextClose; BrowserClose] →
                ∀ n, op_raises env n op = true →
                (∀ n op, op ∈ [PageClose; ContextClose; BrowserClose] →
                         op_raises env n op = false) → False).
  { intros op Hin n Hn Hall. rewrite (Hall n op Hin) in Hn. discriminate. }
  unfold restart_session. rewrite bind_run. cbn [get_state].
  destruct (close_if_open_run (page st) PageClose PageClosed st)
    as (r1 & st1 & E1 & Hp1 & Hc1 & Hb1 & Hl1 & _ & [[-> Ht1]|[-> Ht1]]);
    rewrite bind_run, E1.
  2:{ destruct (close_if_open_raises _ _ _ _ _ E1) as [Hsome Hraise].
      assert (Hin : PageClose ∈ [PageClose; ContextClose; BrowserClose])
        by (rewrite !elem_of_cons; auto).
      assert (Hne : [] ≠ teardown_events st).
      { unfold teardown_events. destruct (page st); [discriminate|congruence]. }
      exists Raised, st1, [], []. rewrite Ht1, !app_nil_r.
      split; [reflexivity|]. split; [reflexivity|]. split; [apply prefix_nil|].
      split; [reflexivity|]. split; [reflexivity|]. split; [congruence|].
      split; [intros Heq; destruct (Hne Heq)|].
      split; [discriminate|].
      split; [intros _; repeat (split; [first [reflexivity|assumption]|]); eauto|].
      intros Hall. destruct (Hop _ Hin _ Hraise Hall). }
  destruct (close_if_open_run (context st) ContextClose ContextClosed st1)
    as (r2 & st2 & E2 & Hp2 & Hc2 & Hb2 & Hl2 & _ & [[-> Ht2]|[-> Ht2]]);
    rewrite bind_run, E2.
  2:{ destruct (close_if_open_raises _ _ _ _ _ E2) as [Hsome Hraise].
      assert (Hin : ContextClose ∈ [PageClose; ContextClose; BrowserClose])
        by (rewrite !elem_of_cons; auto).
      assert (Hne : event_of PageClosed (page st) ≠ teardown_events st).
      { unfold teardown_events. destruct (context st) as [i|]; [|congruence].
        intros Heq. apply (f_equal length) in Heq.
        rewrite !length_app in Heq. cbn in Heq. lia. }
      exists Raised, st2, (event_of PageClosed (page st)), [].
      rewrite Ht2, Ht1, !app_nil_r.
      split; [reflexivity|]. split; [reflexivity|].
      split; [apply prefix_app_r; reflexivity|].
      split; [now apply Htd|]. split; [reflexivity|]. split; [congruence|].
      split; [intros Heq; destruct (Hne Heq)|].
      split; [discriminate|].
      split; [intros _; repeat (split; [first [reflexivity|congruence]|]); eauto|].
      intros Hall. destruct (Hop _ Hin _ Hraise Hall). }
  destruct (close_if_open_run (browser st) BrowserClose BrowserClosed st2)
    as (r3 & st3 & E3 & Hp3 & Hc3 & Hb3 & Hl3 & _ & [[-> Ht3]|[-> Ht3]]);
    rewrite bind_run, E3.
  2:{ destruct (close_if_open_raises _ _ _ _ _ E3) as [Hsome Hraise].
      assert (Hin : BrowserClose ∈ [PageClose; ContextClose; BrowserClose])
        by (rewrite !elem_of_cons; auto).
      assert (Hne : event_of PageClosed (page st) ++ event_of ContextClosed (context st)
                    ≠ teardown_events st).
      { unfold teardown_events. destruct (browser st) as [i|]; [|congruence].
        intros Heq. apply (f_equal length) in Heq.
        rewrite !length_app in Heq. cbn in Heq. lia. }
      exists Raised, st3,
        (event_of PageClosed (page st) ++ event_of ContextClosed (context st)), [].
      rewrite Ht3, Ht2, Ht1, !app_nil_r, <- app_assoc.
      split; [reflexivity|]. split; [reflexivity|].
      split; [unfold teardown_events; rewrite app_assoc; apply prefix_app_r; reflexivity|].
      split; [rewrite forallb_app, !Htd; reflexivity|].
      split; [reflexivity|]. split; [congruence|].
      split; [intros Heq; destruct (Hne Heq)|].
      split; [discriminate|].
      split; [intros _; repeat (split; [first [reflexivity|congruence]|]); eauto|].
      intros Hall. destruct (Hop _ Hin _ Hraise Hall). }
  rewrite bind_run. cbn [modify].
  destruct (setup_browser_run (set_logged_in false st3))
    as (r & st' & pv & E & Ht & Hpv & Hl & Hret).
  rewrite E. exists r, st', (teardown_events st), pv.
  cbn [trace set_logged_in] in Ht. rewrite Ht, Ht3, Ht2, Ht1.
  unfold teardown_events at 1. rewrite <- !app_assoc.
  split; [reflexivity|]. split; [reflexivity|]. split; [reflexivity|].
  split; [unfold teardown_events; rewrite !forallb_app, !Htd; reflexivity|].
  split; [assumption|]. split; [reflexivity|].
  split; [intros _; exact Hl|].
  split; [auto|].
  split; [intros Hne; destruct (Hne eq_refl)|reflexivity].
Qed.

End SessionFacts.

Section ResponseFacts.
Variable env : Env.

(** C4 (amended) — for a response whose URL contains "api" or "ajax" and
    whose status is 403 or 429: while the elapsed time is below the current
    endpoint's interval the listener neither rotates nor restarts (only a
    clock reading is consumed); once the interval has elapsed it rotates the
    proxy and then runs [restart_session] on the rotated state.  Any other
    response is ignored. *)
Theorem handle_response_restart_iff_due
    (url : string) (status : Z) (st : State) (p : ProxyConfig) :
  ProxyRotator.current_index (proxy_rotator st)
    < length (ProxyRotator.proxies (proxy_rotator st)) →
  ProxyRotator.get_current_proxy (proxy_rotator st) = Some p →
  let r := proxy_rotator st in
  let now := clock env (steps st) in
  let now' := clock env (S (steps st)) in
  let early := (ProxyRotator.elapsed_time now r < inject_Z (rotation_interval p))%Q in
  (api_like url = true → status = 403%Z ∨ status = 429%Z →
     (early → handle_response env url status st = (Returned tt, tick st)) ∧
     (¬ early →
        handle_response env url status st =
        restart_session env
          (set_proxy_rotator
             {| ProxyRotator.proxies := ProxyRotator.proxies r;
                ProxyRotator.current_index :=
                  (ProxyRotator.current_index r + 1) mod length (ProxyRotator.proxies r);
                ProxyRotator.last_rotation_time := now' |}
             (tick (tick st))))) ∧
  (api_like url = false ∨ (status ≠ 403%Z ∧ status ≠ 429%Z) →
     handle_response env url status st = (Returned tt, st)).
Proof.
  intros Hin Hp r now now' early. split.
  - intros Hapi Hstatus.
    assert (Hst : ((status =? 403)%Z || (status =? 429)%Z) = true).
    { destruct Hstatus as [-> | ->]; reflexivity. }
    unfold handle_response. fold (api_like url). rewrite Hapi, Hst.
    rewrite bind_run. unfold rotate_if_needed. fold r now now'.
    split.
    + intros Hearly.
      rewrite (rotate_if_needed_not_due r now now' p Hp Hearly).
      destruct st; reflexivity.
    + intros Hd.
      rewrite (rotate_if_needed_due r now now' p Hin Hp Hd).
      reflexivity.
  - intros Hskip. unfold handle_response. fold (api_like url).
    destruct (api_like url); [|reflexivity].
    destruct Hskip as [Hc|[H403 H429]]; [discriminate|].
    apply Z.eqb_neq in H403, H429. now rewrite H403, H429.
Qed.

End ResponseFacts.

Section BookingFacts.
Variable env : Env.

(** C2 — [book_slot] returns [True], or dispatches a notification, only
    when the confirmation block appeared (the wait for it, the fourth
    interaction of the attempt, did not time out) and the text read from it
    contains "confirmed" or "booked" once lowered; then exactly one
    notification is sent, for the slot at hand.  When the block does not
    appear [book_slot] does not return [True] and nothing is notified. *)
Theorem book_slot_confirmed_only_on_keyword (slot : Slot) (st : State) :
  ∃ r st' evs,
    book_slot env slot st = (r, st') ∧
    trace st' = trace st ++ BookingAttempt slot :: evs ∧
    (r = Returned true ∨ notifications evs ≠ [] →
       op_raises env (3 + steps st) (WaitForSelector ".confirmation-block") = false ∧
       ∃ text, confirmation_text env (4 + steps st) slot = Some text ∧
               confirms text = true ∧
               notifications evs =
                 [(slot_test_center slot, slot_date slot, slot_time slot)]) ∧
    (op_raises env (3 + steps st) (WaitForSelector ".confirmation-block") = true →
       r ≠ Returned true ∧ notifications evs = []).
Proof.
  change (3 + steps st) with (S (S (S (steps st)))).
  change (4 + steps st) with (S (S (S (S (steps st))))).
  unfold book_slot, try, realistic_click, wait_for_selector, screenshot,
    notify_success, random_delay, emit.
  repeat first
    [ rewrite bind_run
    | progress unfold perform, ask, modify, lift, raise
    | progress cbn [steps tick record mret M_ret]
    | match goal with
      | |- context [if op_raises ?e ?n ?o then _ else _] =>
          let H := fresh "Hop" in destruct (op_raises e n o) eqn:H
      | |- context [match confirmation_text ?e ?n ?s with _ => _ end] =>
          let H := fresh "Htext" in destruct (confirmation_text e n s) eqn:H
      | |- context [if confirms ?t then _ else _] =>
          let H := fresh "Hconf" in destruct (confirms t) eqn:H
      end ];
  do 3 eexists; (split; [reflexivity|]); cbn [trace tick record];
  (split; [rewrite <- ?app_assoc; cbn [app];
           first [reflexivity | rewrite app_nil_r; reflexivity] |]);
  (split;
   [ intros [Hr|Hn];
     [ try discriminate Hr | try (exfalso; apply Hn; reflexivity) ];
     (split; [first [assumption | reflexivity]|]); eexists;
     (split; [first [eassumption | reflexivity]|]);
     (split; [assumption|reflexivity])
   | intros Hc; first [congruence | split; [discriminate|reflexivity]] ]).
Qed.

End BookingFacts.

Section CalendarFacts.
Import Calendar.

Lemma ltb_lt (a b : datetime) : ltb a b = true ↔ lt a b.
Proof.
  unfold ltb, lt.
  rewrite orb_true_iff, !andb_true_iff, orb_true_iff, andb_true_iff.
  rewrite !Z.ltb_lt, !Z.eqb_eq. reflexivity.
Qed.

(** [not (b < a)] is [a <= b]: the order is total. *)
Lemma ltb_false_le (a b : datetime) : ltb b a = false → le a b.
Proof.
  intros H. unfold le.
  destruct (ltb a b) eqn:Hab; [right; now apply ltb_lt|left].
  assert (Hba : ¬ lt b a) by (rewrite <- ltb_lt; congruence).
  assert (Hab' : ¬ lt a b) by (rewrite <- ltb_lt; congruence).
  unfold lt in *. destruct a as [ya ma da], b as [yb mb db]; simpl in *.
  assert (ya = yb) by lia. assert (ma = mb) by lia. assert (da = db) by lia.
  congruence.
Qed.

End CalendarFacts.

(** Run the straight-line part of a method inside a hypothesis, splitting
    on each browser operation that may raise. *)
Ltac run_in H :=
  repeat first
    [ rewrite bind_run in H
    | progress unfold perform, ask, modify, emit, get_state, raise in H
    | progress cbn [mret M_ret steps tick record lift negb] in H
    | match type of H with
      | context [if op_raises ?e ?n ?o then _ else _] =>
          let Hop := fresh "Hop" in destruct (op_raises e n o) eqn:Hop
      end ].

Section ScannerFacts.
Variable env : Env.
Variable cfg : Config.

Lemma scan_times_suitable (test_center : TestCenter) (date_str : string) (d : Calendar.datetime) :
  Calendar.strptime date_str = Some d →
  Calendar.le (start_date (date_range cfg)) d →
  Calendar.le d (end_date (date_range cfg)) →
  Calendar.weekday d ∈ preferred_days cfg →
  ∀ time_elements acc st slots st',
    Forall (suitable cfg test_center) acc →
    scan_times cfg test_center date_str time_elements acc st = (Returned slots, st') →
    Forall (suitable cfg test_center) slots.
Proof.
  intros Hd Hlo Hhi Hday.
  induction time_elements as [|attr rest IH]; intros acc st slots st' Hacc Hrun.
  - cbn in Hrun. injection Hrun as <- <-. exact Hacc.
  - cbn [scan_times] in Hrun.
    destruct attr as [[|c time_str]|]; [now apply (IH _ _ _ _ Hacc Hrun)| |now apply (IH _ _ _ _ Hacc Hrun)].
    rewrite bind_run in Hrun.
    destruct (Parse.hour_minute (String c time_str)) as [time|] eqn:Htime;
      [|discriminate]. cbn [lift mret M_ret] in Hrun.
    rewrite bind_run in Hrun.
    destruct (Parse.hour_minute (earliest (time_preference cfg))) as [lo|] eqn:Hlo';
      [|discriminate]. cbn [lift mret M_ret] in Hrun.
    rewrite bind_run in Hrun.
    destruct (Parse.hour_minute (latest (time_preference cfg))) as [hi|] eqn:Hhi';
      [|discriminate]. cbn [lift mret M_ret] in Hrun.
    destruct ((minutes lo <=? minutes time)%Z && (minutes time <=? minutes hi)%Z)
      eqn:Hwin.
    + refine (IH _ _ _ _ _ Hrun).
      apply Forall_app. split; [exact Hacc|]. apply Forall_singleton.
      apply andb_true_iff in Hwin as [H1 H2].
      apply Z.leb_le in H1, H2.
      split; [reflexivity|]. split.
      * exists d. auto.
      * exists time, lo, hi. cbn [slot_time]. auto.
    + now apply (IH _ _ _ _ Hacc Hrun).
Qed.

Lemma scan_dates_suitable (test_center : TestCenter) :
  ∀ date_elements acc st slots st',
    Forall (suitable cfg test_center) acc →
    scan_dates env cfg test_center date_elements acc st = (Returned slots, st') →
    Forall (suitable cfg test_center) slots.
Proof.
  induction date_elements as [|attr rest IH]; intros acc st slots st' Hacc Hrun.
  - cbn in Hrun. injection Hrun as <- <-. exact Hacc.
  - cbn [scan_dates] in Hrun.
    destruct attr as [[|c date_str]|];
      [now apply (IH _ _ _ _ Hacc Hrun)| |now apply (IH _ _ _ _ Hacc Hrun)].
    destruct (Calendar.strptime (String c date_str)) as [d|] eqn:Hd;
      [|now apply (IH _ _ _ _ Hacc Hrun)].
    destruct (Calendar.ltb d (start_date (date_range cfg))
              || Calendar.ltb (end_date (date_range cfg)) d) eqn:Hrange;
      [now apply (IH _ _ _ _ Hacc Hrun)|].
    apply orb_false_iff in Hrange as [Hlo Hhi].
    apply ltb_false_le in Hlo, Hhi.
    destruct (bool_decide (Calendar.weekday d ∈ preferred_days cfg)) eqn:Hday;
      cbn [negb] in Hrun; [|now apply (IH _ _ _ _ Hacc Hrun)].
    apply bool_decide_eq_true in Hday.
    unfold realistic_click, random_delay, try, wait_for_selector in Hrun.
    run_in Hrun; try discriminate Hrun.
    + now apply (IH _ _ _ _ Hacc Hrun).
    + match type of Hrun with
      | context [scan_times ?c ?t ?ds ?te ?a ?s] =>
          destruct (scan_times c t ds te a s) as [[acc'|] st1] eqn:Htimes
      end; [|discriminate].
      apply (IH _ _ _ _ (scan_times_suitable _ _ _ Hd Hlo Hhi Hday _ _ _ _ _ Hacc Htimes) Hrun).
Qed.

(** C3 — every slot [check_available_slots] returns for a centre passes
    the three filters: its date parses to a day of the inclusive range
    [start_date .. end_date] whose weekday is one of the preferred days, and
    its time, in minutes since midnight, lies in the inclusive window from
    [earliest] to [latest]. *)
Theorem check_available_slots_suitable
    (test_center : TestCenter) (st st' : State) (slots : list Slot) (s : Slot) :
  check_available_slots env cfg test_center st = (Returned slots, st') →
  s ∈ slots →
  suitable cfg test_center s.
Proof.
  intros Hrun Hin.
  enough (Hall : Forall (suitable cfg test_center) slots).
  { rewrite Forall_forall in Hall. auto. }
  clear Hin.
  unfold check_available_slots, try, search_test_center, wait_for_selector,
    screenshot in Hrun.
  rewrite bind_run in Hrun. unfold ask in Hrun at 1. rewrite bind_run in Hrun.
  destruct (search_result env (steps st) test_center) as [[|]|];
    cbn [negb] in Hrun; run_in Hrun;
    try (injection Hrun as <- <-; constructor); try discriminate Hrun.
  match type of Hrun with
  | context [scan_dates ?e ?c ?t ?ds ?a ?s] =>
      destruct (scan_dates e c t ds a s) as [[found|] st1] eqn:Hdates
  end; run_in Hrun; try discriminate Hrun.
  - injection Hrun as <- <-.
    eapply scan_dates_suitable; [|exact Hdates]. constructor.
  - injection Hrun as <- <-. constructor.
Qed.

End ScannerFacts.

Section SortFacts.

Lemma string_compare_as_OT (a b : string) :
  String.compare a b = OrdersEx.String_as_OT.compare a b.
Proof.
  reflexivity.
Qed.


Lemma string_compare_refl (a : string) : String.compare a a = Eq.
Proof.
  rewrite string_compare_as_OT.
  destruct (OrdersEx.String_as_OT.compare_spec a a) as [_|H|H]; [reflexivity| |];
    exfalso; exact (StrictOrder_Irreflexive (R:=OrdersEx.String_as_OT.lt) a H).
Qed.


Lemma key_ltb_irrefl (a : Slot) : key_ltb a a = false.
Proof.
  unfold key_ltb, String.ltb. now rewrite !string_compare_refl.
Qed.



Lemma key_ltb_same_l (a b c : Slot) : same_key a b → key_ltb a c = key_ltb b c.
Proof. intros [Hd Ht]. unfold key_ltb. now rewrite Hd, Ht. Qed.



Lemma head_insert_slot (x : Slot) (sorted : list Slot) :
  head (insert_slot x sorted) =
  match head sorted with
  | Some y => if key_ltb y x then Some y else Some x
  | None => Some x
  end.
Proof.
  destruct sorted as [|y rest]; [reflexivity|].
  cbn. destruct (key_ltb y x); reflexivity.
Qed.


Lemma earliest_of_is_Some (slots : list Slot) :
  slots ≠ [] → is_Some (earliest_of slots).
Proof.
  destruct slots as [|x slots]; [congruence|]. intros _.
  unfold earliest_of, sort_slots. cbn [foldr]. rewrite head_insert_slot.
  destruct (head _) as [y|]; [destruct (key_ltb y x)|]; eauto.
Qed.

End SortFacts.

(** Expose the next call of a method run inside a hypothesis. *)
Ltac binds_in H :=
  repeat first [ rewrite bind_run in H
               | progress cbn [mret M_ret negb lift] in H
               | progress cbv beta in H ].

Section CycleFacts.
Variable env : Env.
Variable cfg : Config.

Lemma nd_refl (st : State) : new_decisions st st [].
Proof. exists []. now rewrite app_nil_r. Qed.

Lemma nd_trans (st st1 st2 : State) (d1 d2 : list Decision) :
  new_decisions st st1 d1 → new_decisions st1 st2 d2 →
  new_decisions st st2 (d1 ++ d2).
Proof.
  intros (e1 & H1 & <-) (e2 & H2 & <-). exists (e1 ++ e2).
  rewrite H2, H1, app_assoc. split; [reflexivity|]. apply omap_app.
Qed.

Lemma nd_tick (st : State) : new_decisions st (tick st) [].
Proof. exists []. cbn. now rewrite app_nil_r. Qed.

Lemma nd_record (ev : Event) (st : State) :
  new_decisions st (record ev st) (decisions [ev]).
Proof. exists [ev]. split; reflexivity. Qed.

Lemma nd_quiet_trans (st st1 st2 : State) (ds : list Decision) :
  new_decisions st st1 [] → new_decisions st1 st2 ds → new_decisions st st2 ds.
Proof. intros H1 H2. apply (nd_trans _ _ _ [] ds H1 H2). Qed.

Lemma nd_perform (op : Op) (ev : nat → Event) (st : State) r st' :
  perform env op ev st = (r, st') →
  new_decisions st st' (match r with Returned n => decisions [ev n] | Raised => [] end).
Proof.
  unfold perform. destruct (op_raises env (steps st) op); intros [= <- <-].
  - apply nd_tick.
  - apply (nd_quiet_trans _ _ _ _ (nd_tick st)), nd_record.
Qed.

Lemma rotate_if_needed_quiet (st : State) r st' :
  rotate_if_needed env st = (r, st') → new_decisions st st' [].
Proof.
  unfold rotate_if_needed.
  destruct (ProxyRotator.rotate_if_needed _ _ _) as [[[|] rot]|];
    intros [= <- <-]; exists []; cbn; now rewrite app_nil_r.
Qed.

Lemma scan_times_state (test_center : TestCenter) (date_str : string) :
  ∀ time_elements acc st r st',
    scan_times cfg test_center date_str time_elements acc st = (r, st') → st' = st.
Proof.
  induction time_elements as [|attr rest IH]; intros acc st r st' Hrun.
  - cbn in Hrun. now injection Hrun as <- <-.
  - cbn [scan_times] in Hrun.
    destruct attr as [[|c time_str]|]; [now apply (IH _ _ _ _ Hrun)| |now apply (IH _ _ _ _ Hrun)].
    rewrite bind_run in Hrun.
    destruct (Parse.hour_minute (String c time_str)); cbn [lift mret M_ret raise] in Hrun;
      [|now injection Hrun as <- <-].
    rewrite bind_run in Hrun.
    destruct (Parse.hour_minute (earliest (time_preference cfg)));
      cbn [lift mret M_ret raise] in Hrun; [|now injection Hrun as <- <-].
    rewrite bind_run in Hrun.
    destruct (Parse.hour_minute (latest (time_preference cfg)));
      cbn [lift mret M_ret raise] in Hrun; [|now injection Hrun as <- <-].
    destruct (_ && _); now apply (IH _ _ _ _ Hrun).
Qed.

Lemma scan_dates_quiet (test_center : TestCenter) :
  ∀ date_elements acc st r st',
    scan_dates env cfg test_center date_elements acc st = (r, st') →
    new_decisions st st' [].
Proof.
  induction date_elements as [|attr rest IH]; intros acc st r st' Hrun.
  - cbn in Hrun. injection Hrun as <- <-. apply nd_refl.
  - cbn [scan_dates] in Hrun.
    destruct attr as [[|c date_str]|];
      [now apply (IH _ _ _ _ Hrun)| |now apply (IH _ _ _ _ Hrun)].
    destruct (Calendar.strptime (String c date_str)) as [d|];
      [|now apply (IH _ _ _ _ Hrun)].
    destruct (_ || _); [now apply (IH _ _ _ _ Hrun)|].
    destruct (negb _); [now apply (IH _ _ _ _ Hrun)|].
    unfold realistic_click, random_delay, try, wait_for_selector in Hrun.
    binds_in Hrun.
    destruct (perform env (Click _) _ st) as [[n|] s1] eqn:Hclick;
      apply nd_perform in Hclick; binds_in Hrun.
    2:{ injection Hrun as <- <-. exact Hclick. }
    destruct (perform env (WaitForSelector _) _ s1) as [[m|] s2] eqn:Hwait;
      apply nd_perform in Hwait; binds_in Hrun;
      apply (nd_quiet_trans _ _ _ _ Hclick), (nd_quiet_trans _ _ _ _ Hwait).
    + unfold ask in Hrun. binds_in Hrun.
      destruct (scan_times _ _ _ _ _ _) as [[acc'|] s3] eqn:Htimes.
      * apply scan_times_state in Htimes as ->.
        apply (nd_quiet_trans _ _ _ _ (nd_tick s2)). now apply (IH _ _ _ _ Hrun).
      * apply scan_times_state in Htimes as ->.
        injection Hrun as <- <-. apply nd_tick.
    + now apply (IH _ _ _ _ Hrun).
Qed.

(** A scan adds its closing line, with the list it returns, or nothing. *)
Lemma check_available_slots_decisions (test_center : TestCenter) (st : State) r st' :
  check_available_slots env cfg test_center st = (r, st') →
  (∃ slots, r = Returned slots ∧
            new_decisions st st' [Scan (center_name test_center) slots]) ∨
  ((r = Returned [] ∨ r = Raised) ∧ new_decisions st st' []).
Proof.
  intros Hrun. unfold check_available_slots, try in Hrun.
  match type of Hrun with
  | context [match ?body st with _ => _ end] =>
      destruct (body st) as [rb sb] eqn:Hbody
  end.
  assert (Hb : (∃ slots, rb = Returned slots ∧
                  new_decisions st sb [Scan (center_name test_center) slots]) ∨
               ((rb = Returned [] ∨ rb = Raised) ∧ new_decisions st sb [])).
  { clear Hrun. unfold search_test_center, wait_for_selector in Hbody.
    binds_in Hbody. unfold ask in Hbody at 1.
    destruct (search_result env (steps st) test_center) as [[|]|];
      binds_in Hbody; cbn [negb raise] in Hbody.
    - destruct (perform env (WaitForSelector _) _ (tick st)) as [[n|] s1] eqn:Hwait;
        apply nd_perform in Hwait; binds_in Hbody.
      2:{ injection Hbody as <- <-. right. split; [auto|].
          apply (nd_quiet_trans _ _ _ _ (nd_tick st) Hwait). }
      unfold ask in Hbody. binds_in Hbody.
      destruct (scan_dates _ _ _ _ _ _) as [[found|] s2] eqn:Hdates;
        apply scan_dates_quiet in Hdates; binds_in Hbody.
      + unfold emit, modify in Hbody. binds_in Hbody. injection Hbody as <- <-.
        left. exists found. split; [reflexivity|].
        apply (nd_quiet_trans _ _ _ _ (nd_tick st)), (nd_quiet_trans _ _ _ _ Hwait),
          (nd_quiet_trans _ _ _ _ (nd_tick s1)), (nd_quiet_trans _ _ _ _ Hdates).
        apply nd_record.
      + injection Hbody as <- <-. right. split; [auto|].
        apply (nd_quiet_trans _ _ _ _ (nd_tick st)), (nd_quiet_trans _ _ _ _ Hwait),
          (nd_quiet_trans _ _ _ _ (nd_tick s1)), Hdates.
    - injection Hbody as <- <-. right. split; [auto|apply nd_tick].
    - injection Hbody as <- <-. right. split; [auto|apply nd_tick]. }
  destruct rb as [slots|].
  - injection Hrun as <- <-. exact Hb.
  - destruct Hb as [(slots & Hc & _)|[_ Hsb]]; [discriminate|].
    unfold screenshot in Hrun. binds_in Hrun.
    destruct (perform env _ _ sb) as [[n|] s2] eqn:Hshot;
      apply nd_perform in Hshot; binds_in Hrun; injection Hrun as <- <-;
      right; (split; [auto|]); apply (nd_quiet_trans _ _ _ _ Hsb Hshot).
Qed.

(** A booking attempt adds its opening line and nothing else that counts. *)
Lemma book_slot_decisions (slot : Slot) (st : State) r st' :
  book_slot env slot st = (r, st') → new_decisions st st' [Attempt slot].
Proof.
  unfold book_slot, try, realistic_click, wait_for_selector, screenshot,
    notify_success, random_delay, emit.
  repeat first
    [ rewrite bind_run
    | progress unfold perform, ask, modify, lift, raise
    | progress cbn [steps tick record mret M_ret]
    | match goal with
      | |- context [if op_raises ?e ?n ?o then _ else _] =>
          destruct (op_raises e n o)
      | |- context [match confirmation_text ?e ?n ?s with _ => _ end] =>
          destruct (confirmation_text e n s)
      | |- context [if confirms ?t then _ else _] =>
          destruct (confirms t)
      end ];
  intros [= <- <-]; eexists;
  (split; [cbn [trace tick record]; rewrite <- ?app_assoc; reflexivity|]);
  reflexivity.
Qed.

(** The cycle handles one location after the other. *)
Lemma check_each_pattern :
  ∀ centers st r st',
    check_each env cfg centers st = (r, st') →
    ∃ ds, new_decisions st st' ds ∧ per_location centers ds.
Proof.
  induction centers as [|tc rest IH]; intros st r st' Hrun.
  - cbn in Hrun. injection Hrun as <- <-. exists []. split; [apply nd_refl|constructor].
  - cbn [check_each] in Hrun. unfold random_delay in Hrun. binds_in Hrun.
    destruct (rotate_if_needed env st) as [[b|] s0] eqn:Hrot;
      apply rotate_if_needed_quiet in Hrot; binds_in Hrun.
    2:{ injection Hrun as <- <-. exists []. split; [exact Hrot|constructor]. }
    destruct (check_available_slots env cfg tc s0) as [r1 s1] eqn:Hscan.
    destruct (check_available_slots_decisions _ _ _ _ Hscan)
      as [(slots & -> & Hnd)|[[-> | ->] Hnd]].
    + destruct slots as [|x slots].
      * binds_in Hrun. destruct (IH _ _ _ Hrun) as (ds & Hds & Hpl).
        exists (Scan (center_name tc) [] :: ds). split.
        -- apply (nd_quiet_trans _ _ _ _ Hrot), (nd_trans _ _ _ [_] ds Hnd Hds).
        -- now constructor.
      * destruct (earliest_of_is_Some (x :: slots)) as [s Hs]; [discriminate|].
        unfold earliest_of in Hs. rewrite Hs in Hrun. cbn [lift] in Hrun.
        binds_in Hrun.
        destruct (book_slot env s s1) as [r2 s2] eqn:Hbook.
        apply book_slot_decisions in Hbook.
        assert (Hhere : new_decisions st s2 [Scan (center_name tc) (x :: slots); Attempt s]).
        { apply (nd_quiet_trans _ _ _ _ Hrot), (nd_trans _ _ _ [_] [_] Hnd Hbook). }
        destruct r2 as [[|]|]; binds_in Hrun.
        -- injection Hrun as <- <-. eexists. split; [exact Hhere|].
           apply pl_attempt; [exact Hs|constructor].
        -- destruct (IH _ _ _ Hrun) as (ds & Hds & Hpl).
           exists ([Scan (center_name tc) (x :: slots); Attempt s] ++ ds). split.
           ++ apply (nd_trans _ _ _ _ _ Hhere Hds).
           ++ apply pl_attempt; assumption.
        -- injection Hrun as <- <-. eexists. split; [exact Hhere|].
           apply pl_attempt; [exact Hs|constructor].
    + binds_in Hrun. destruct (IH _ _ _ Hrun) as (ds & Hds & Hpl).
      exists ds. split.
      * apply (nd_quiet_trans _ _ _ _ Hrot), (nd_quiet_trans _ _ _ _ Hnd), Hds.
      * now constructor.
    + binds_in Hrun. injection Hrun as <- <-. exists []. split.
      * apply (nd_quiet_trans _ _ _ _ Hrot), Hnd.
      * constructor.
Qed.

Lemma run_monitoring_cycle_pattern (st : State) r st' :
  run_monitoring_cycle env cfg st = (r, st') →
  ∃ ds, new_decisions st st' ds ∧ per_location (test_centers cfg) ds.
Proof.
  intros Hrun. unfold run_monitoring_cycle, try in Hrun.
  match type of Hrun with
  | context [match ?body st with _ => _ end] =>
      destruct (body st) as [rb sb] eqn:Hbody
  end.
  enough (Hb : ∃ ds, new_decisions st sb ds ∧ per_location (test_centers cfg) ds).
  { destruct rb; injection Hrun as <- <-; exact Hb. }
  clear Hrun. unfold login, get_state in Hbody. binds_in Hbody.
  destruct (logged_in st) eqn:Hlog; binds_in Hbody; rewrite ?Hlog in Hbody;
    binds_in Hbody.
  - apply (check_each_pattern _ _ _ _ Hbody).
  - unfold ask in Hbody. binds_in Hbody.
    destruct (login_result env (steps st)) as [[|]|];
      unfold modify, raise in Hbody; binds_in Hbody; cbn [negb] in Hbody.
    + destruct (check_each_pattern _ _ _ _ Hbody) as (ds & Hds & Hpl).
      exists ds. split; [|exact Hpl].
      apply (nd_quiet_trans _ _ _ _ (nd_tick st)).
      destruct Hds as (evs & Ht & Hd). exists evs. split; [exact Ht|exact Hd].
    + injection Hbody as <- <-. exists []. split; [apply nd_tick|constructor].
    + injection Hbody as <- <-. exists []. split; [apply nd_tick|constructor].
Qed.

End CycleFacts.

Section SelectionFacts.

Lemma attempts_decisions (evs : list Event) :
  attempts evs = attempted (decisions evs).
Proof.
  unfold attempts, attempted, decisions.
  induction evs as [|ev evs IH]; [reflexivity|].
  destruct ev; cbn; rewrite ?IH; reflexivity.
Qed.

(** Every attempt follows at once the scan whose earliest slot it is. *)
Lemma per_location_attempt (centers : list TestCenter) (ds : list Decision) :
  per_location centers ds →
  ∀ i s, ds !! i = Some (Attempt s) →
    ∃ j c slots, i = S j ∧ ds !! j = Some (Scan c slots) ∧ earliest_of slots = Some s.
Proof.
  induction 1 as [centers|tc rest ds Hpl IH|tc rest ds Hpl IH|tc rest slots s0 ds Hs Hpl IH];
    intros i s Hi.
  - discriminate.
  - now apply IH.
  - destruct i as [|i]; [discriminate|].
    destruct (IH i s Hi) as (j & c & slots & -> & Hj & Hs).
    exists (S j), c, slots. auto.
  - destruct i as [|[|i]]; [discriminate| |].
    + injection Hi as <-. exists 0, (center_name tc), slots. auto.
    + destruct (IH i s Hi) as (j & c & sl & -> & Hj & Hs').
      exists (S (S j)), c, sl. auto.
Qed.

(** At most one attempt per location. *)
Lemma per_location_attempted (centers : list TestCenter) (ds : list Decision) :
  per_location centers ds → (length (attempted ds) ≤ length centers)%nat.
Proof.
  unfold attempted, omap. induction 1; simpl in *; lia.
Qed.

Variable env : Env.
Variable cfg : Config.


End SelectionFacts.


Section ScenarioFacts.
Import Scenario.




(** C4 (as stated) fails: a 429 from a URL that contains neither "api" nor
    "ajax" changes nothing, although the rotation is due. *)
Lemma blocking_status_on_other_url_ignored :
  api_like LOGIN_URL = false ∧
  (∃ r, ProxyRotator.rotate_if_needed (clock late (steps start))
          (clock late (S (steps start))) (proxy_rotator start) = Some (true, r)) ∧
  handle_response late LOGIN_URL 429 start = (Returned tt, start).
Proof.
  split; [vm_compute; reflexivity|].
  split; [eexists; vm_compute; reflexivity|vm_compute; reflexivity].
Qed.

Lemma handle_response_restart_iff_due_witness :
  handle_response late "https://driverpracticaltest.dvsa.gov.uk/api/slots" 429 start =
  restart_session late
    (set_proxy_rotator (ProxyRotator.mk pool 0 1000) (tick (tick start))).
Proof.
  assert (Hin : (ProxyRotator.current_index (proxy_rotator start)
                 < length (ProxyRotator.proxies (proxy_rotator start)))%nat)
    by (vm_compute; lia).
  assert (Hp : ProxyRotator.get_current_proxy (proxy_rotator start)
               = Some (mkProxyConfig "10.0.0.1" 8080 "user" "secret" 600))
    by reflexivity.
  destruct (handle_response_restart_iff_due late
              "https://driverpracticaltest.dvsa.gov.uk/api/slots" 429 start _ Hin Hp)
    as [Hblock _].
  destruct Hblock as [_ Hdue]; [vm_compute; reflexivity|right; reflexivity|].
  apply Hdue. vm_compute. discriminate.
Defined.

Lemma check_available_slots_suitable_witness :
  ∃ st',
    check_available_slots confirming criteria centre_A start =
      (Returned [A_0603_1000; A_0605_0930], st') ∧
    suitable criteria centre_A A_0603_1000.
Proof.
  eexists. split; [vm_compute; reflexivity|].
  eapply (check_available_slots_suitable confirming criteria centre_A start _ _
            A_0603_1000).
  - vm_compute. reflexivity.
  - apply list_elem_of_here.
Defined.

Lemma book_slot_confirmed_only_on_keyword_witness :
  ∃ st',
    book_slot confirming A_0603_1000 start = (Returned true, st') ∧
    confirmation_text confirming (4 + steps start) A_0603_1000
      = Some "Your test is Booked" ∧
    confirms "Your test is Booked" = true.
Proof.
  destruct (book_slot_confirmed_only_on_keyword confirming A_0603_1000 start)
    as (r & st' & evs & Hrun & _ & Honly & _).
  vm_compute in Hrun. injection Hrun as <- <-.
  eexists. split; [vm_compute; reflexivity|].
  destruct Honly as (_ & text & Htext & Hconf & _); [left; reflexivity|].
  split; [reflexivity|]. vm_compute. reflexivity.
Defined.

(** C9 (as stated) fails: when closing the page raises, the restart ends
    there; page, context and browser are still open, nothing has been
    provisioned and the session is still marked as logged in. *)
Lemma restart_stopped_by_close_stays_logged_in :
  ∃ st',
    restart_session Cases.stuck Cases.signed_in = (Raised, st') ∧
    logged_in Cases.signed_in = true ∧ logged_in st' = true ∧
    teardown_events Cases.signed_in
      = [PageClosed 2; ContextClosed 1; BrowserClosed 0] ∧
    trace st' = trace Cases.signed_in ∧
    page st' = Some 2 ∧ context st' = Some 1 ∧ browser st' = Some 0.
Proof.
  eexists. split; [vm_compute; reflexivity|].
  repeat split; vm_compute; reflexivity.
Qed.

Lemma restart_session_ordered_witness :
  ∃ st' pv,
    restart_session confirming start = (Returned tt, st') ∧
    trace st' = [PageClosed 2; ContextClosed 1; BrowserClosed 0] ++ pv ∧
    forallb is_provisioning pv = true ∧
    logged_in st' = false.
Proof.
  destruct (restart_session_ordered confirming start)
    as (r & st' & td & pv & Hrun & Htrace & _ & _ & Hpv & _ & _ & Hret & _).
  vm_compute in Hrun. injection Hrun as <- <-.
  destruct (Hret eq_refl) as (Htd & Hlog & _).
  eexists _, pv. split; [vm_compute; reflexivity|].
  split; [|split; [exact Hpv|exact Hlog]].
  rewrite Htrace, Htd. reflexivity.
Defined.

End ScenarioFacts.

(* ===================================================================== *)
(** * Further properties of the code                                      *)
(* ===================================================================== *)

Section ProxyRotatorMore.
Import ProxyRotator Samples.

Lemma rotate_nonempty (now : Q) (r : t) :
  proxies r ≠ [] →
  ∃ p, rotate now r =
       Some (p, {| proxies := proxies r;
                   current_index := (current_index r + 1) mod length (proxies r);
                   last_rotation_time := now |}) ∧
       proxies r !! ((current_index r + 1) mod length (proxies r)) = Some p.
Proof.
  intros Hne. unfold rotate.
  destruct (length (proxies r)) as [|n] eqn:Hlen.
  { destruct (proxies r); [congruence|discriminate]. }
  set (r' := mk _ _ _).
  destruct (get_current_proxy_is_Some r') as [p Hp].
  { subst r'; cbn [current_index proxies]. rewrite Hlen.
    apply Nat.mod_upper_bound. lia. }
  exists p. rewrite Hp. split; [reflexivity|exact Hp].
Qed.

(** X1 — on a non-empty pool [rotate] never raises, whatever the current
    index was: it leaves the pool as it is, moves to an index inside the
    pool, stamps the rotation clock with the new reading and returns the
    endpoint that is current afterwards. *)
Theorem rotate_returns_new_current (now : Q) (r : t) :
  proxies r ≠ [] →
  ∃ p r', rotate now r = Some (p, r') ∧
          proxies r' = proxies r ∧
          current_index r' < length (proxies r') ∧
          last_rotation_time r' = now ∧
          get_current_proxy r' = Some p.
Proof.
  intros Hne. destruct (rotate_nonempty now r Hne) as (p & Hrot & Hp).
  eexists p, _. split; [exact Hrot|]. cbn [proxies current_index last_rotation_time].
  repeat split; [|exact Hp].
  apply Nat.mod_upper_bound. destruct (proxies r); [congruence|discriminate].
Qed.

Lemma rotate_returns_new_current_witness :
  ∃ p r', rotate 5 (mk pool2 7 0) = Some (p, r') ∧ current_index r' = 0.
Proof.
  destruct (rotate_returns_new_current 5 (mk pool2 7 0)) as (p & r' & Hrot & _).
  - discriminate.
  - exists p, r'. split; [exact Hrot|].
    vm_compute in Hrot. injection Hrot as _ <-. reflexivity.
Defined.

Lemma rotations_index (nows : list Q) :
  ∀ r, proxies r ≠ [] → nows ≠ [] ∨ current_index r < length (proxies r) →
  ∃ r', rotations nows r = Some r' ∧
        proxies r' = proxies r ∧
        current_index r' = (current_index r + length nows) mod length (proxies r) ∧
        last_rotation_time r' = default (last_rotation_time r) (last nows).
Proof.
  induction nows as [|now rest IH]; intros r Hne Hin.
  - destruct Hin as [Hc|Hlt]; [congruence|].
    exists r. cbn. rewrite Nat.add_0_r, Nat.mod_small by exact Hlt. auto.
  - destruct (rotate_nonempty now r Hne) as (p & Hrot & Hp).
    cbn [rotations]. rewrite Hrot. cbn [mbind option_bind].
    set (r1 := mk _ _ _).
    destruct (IH r1) as (r' & Hr' & Hpool & Hidx & Hclock).
    + exact Hne.
    + right. cbn. apply Nat.mod_upper_bound.
      destruct (proxies r); [congruence|discriminate].
    + exists r'. split; [exact Hr'|]. subst r1.
      cbn [proxies current_index last_rotation_time] in *.
      split; [exact Hpool|]. split.
      * rewrite Hidx, Nat.Div0.add_mod_idemp_l. f_equal. cbn [length]. lia.
      * rewrite Hclock, last_cons. destruct (last rest); reflexivity.
Qed.

(** X2 — forced rotations walk the pool in strict cyclic order: from an
    index inside the pool, [k] calls of [rotate] lead to index
    [(i + k) mod n]; so [n] calls lead back to the start, and every
    endpoint becomes current after fewer than [n] calls. *)
Theorem rotations_cyclic (r : t) :
  current_index r < length (proxies r) →
  (∀ nows, ∃ r', rotations nows r = Some r' ∧
                 proxies r' = proxies r ∧
                 current_index r' = (current_index r + length nows) mod length (proxies r)) ∧
  (∀ nows, length nows = length (proxies r) →
           ∃ r', rotations nows r = Some r' ∧ current_index r' = current_index r) ∧
  (∀ j, j < length (proxies r) →
        ∃ k, k < length (proxies r) ∧
             ∀ nows, length nows = k →
                     ∃ r', rotations nows r = Some r' ∧ current_index r' = j).
Proof.
  intros Hlt.
  assert (Hne : proxies r ≠ []) by (destruct (proxies r); [cbn in Hlt; lia|discriminate]).
  assert (Hall : ∀ nows, ∃ r', rotations nows r = Some r' ∧
                   proxies r' = proxies r ∧
                   current_index r' = (current_index r + length nows) mod length (proxies r)).
  { intros nows. destruct (rotations_index nows r Hne (or_intror Hlt))
      as (r' & H1 & H2 & H3 & _). eauto. }
  split; [exact Hall|]. split.
  - intros nows Hlen. destruct (Hall nows) as (r' & H1 & _ & H3).
    exists r'. split; [exact H1|]. rewrite H3, Hlen.
    rewrite <- (Nat.mul_1_l (length (proxies r))) at 1.
    rewrite Nat.Div0.mod_add. now apply Nat.mod_small.
  - intros j Hj.
    exists ((j + length (proxies r) - current_index r) mod length (proxies r)).
    split; [apply Nat.mod_upper_bound; lia|].
    intros nows Hlen. destruct (Hall nows) as (r' & H1 & _ & H3).
    exists r'. split; [exact H1|]. rewrite H3, Hlen.
    rewrite Nat.Div0.add_mod_idemp_r.
    replace (current_index r + (j + length (proxies r) - current_index r))
      with (j + 1 * length (proxies r)) by lia.
    rewrite Nat.Div0.mod_add. now apply Nat.mod_small.
Qed.

Lemma rotations_cyclic_witness :
  ∃ r', rotations [1; 2]%Q (mk pool2 1 0) = Some r' ∧ current_index r' = 1.
Proof.
  assert (Hin : current_index (mk pool2 1 0) < length (proxies (mk pool2 1 0)))
    by (cbn; lia).
  destruct (rotations_cyclic (mk pool2 1 0) Hin) as (_ & Hback & _).
  destruct (Hback [1; 2]%Q eq_refl) as (r' & Hr & Hidx).
  exists r'. split; [exact Hr|exact Hidx].
Defined.

(** X3 — when the operations of the rotator raise: [rotate] exactly on an
    empty pool; [get_current_proxy], [rotate_if_needed] and
    [get_proxy_url] exactly when the current index lies outside the pool,
    which is always the case on an empty pool. *)
Theorem rotator_raises_iff (now now' : Q) (r : t) :
  (rotate now r = None ↔ proxies r = []) ∧
  (get_current_proxy r = None ↔ length (proxies r) ≤ current_index r)%nat ∧
  (rotate_if_needed now now' r = None ↔ length (proxies r) ≤ current_index r)%nat ∧
  (get_proxy_url r = None ↔ length (proxies r) ≤ current_index r)%nat.
Proof.
  assert (Hget : (get_current_proxy r = None ↔ length (proxies r) ≤ current_index r)%nat).
  { unfold get_current_proxy. apply lookup_ge_None. }
  split; [|split; [exact Hget|split]].
  - split.
    + intros Hnone. destruct (proxies r) as [|p ps] eqn:Hps; [reflexivity|].
      destruct (rotate_nonempty now r) as (q & Hq & _); [congruence|].
      rewrite Hps in Hq. congruence.
    + intros Hnil. unfold rotate. now rewrite Hnil.
  - rewrite <- Hget. unfold rotate_if_needed.
    destruct (get_current_proxy r) as [p|] eqn:Hp; cbn [mbind option_bind].
    + split; [|discriminate].
      assert (Hne : proxies r ≠ []).
      { intros Hnil. unfold get_current_proxy in Hp. rewrite Hnil in Hp. discriminate. }
      destruct (rotate_nonempty now' r Hne) as (q & Hq & _). rewrite Hq.
      destruct (Qle_bool _ _); discriminate.
    + tauto.
  - rewrite <- Hget. unfold get_proxy_url.
    destruct (get_current_proxy r); cbn; split; congruence.
Qed.

End ProxyRotatorMore.

Section FingerPrintMore.
Import FingerPrintGenerator.

Ltac cases_of H :=
  repeat (apply elem_of_cons in H as [->|H]); [..|apply elem_of_nil in H; destruct H].

(** X4 — the user agent of every generated profile is a complete Chrome
    user-agent string: one of the three platform tokens, one of the listed
    Chrome versions in the place of the placeholder, and no placeholder
    left over. *)
Theorem generate_user_agent_complete (draw : nat → nat) (f : Fingerprint) :
  generate draw = Some f →
  ∃ platform version,
    platform ∈ PLATFORMS ∧ version ∈ CHROME_VERSIONS ∧
    userAgent f =
      "Mozilla/5.0 (" +:+ platform +:+
      ") AppleWebKit/537.36 (KHTML, like Gecko) Chrome/" +:+ version +:+
      " Safari/537.36" ∧
    Text.contains "{version}" (userAgent f) = false.
Proof.
  unfold generate. intros Hgen.
  destruct (choice (draw 0) CHROME_VERSIONS) as [v|] eqn:Hv; [|discriminate].
  destruct (choice (draw 1) USER_AGENTS) as [u|] eqn:Hu; [|discriminate].
  cbn [mbind option_bind] in Hgen.
  destruct (choice (draw 2) VIEWPORT_SIZES); [|discriminate].
  destruct (choice (draw 3) SCALE_FACTORS); [|discriminate].
  destruct (choice (draw 4) TOUCH); [|discriminate].
  destruct (choice (draw 5) LOCALES); [|discriminate].
  cbn [mbind option_bind] in Hgen. injection Hgen as <-. cbn [userAgent].
  apply choice_elem_of in Hv, Hu.
  assert (Hv' := Hv).
  unfold USER_AGENTS in Hu. unfold CHROME_VERSIONS in Hv'.
  cases_of Hu.
  - exists "Windows NT 10.0; Win64; x64", v.
    split; [unfold PLATFORMS; rewrite !elem_of_cons; tauto|]. split; [exact Hv|].
    split; [reflexivity|]. cases_of Hv'; vm_compute; reflexivity.
  - exists "Macintosh; Intel Mac OS X 10_15_7", v.
    split; [unfold PLATFORMS; rewrite !elem_of_cons; tauto|]. split; [exact Hv|].
    split; [reflexivity|]. cases_of Hv'; vm_compute; reflexivity.
  - exists "X11; Linux x86_64", v.
    split; [unfold PLATFORMS; rewrite !elem_of_cons; tauto|]. split; [exact Hv|].
    split; [reflexivity|]. cases_of Hv'; vm_compute; reflexivity.
Qed.

Lemma generate_user_agent_complete_witness :
  ∃ f, generate (λ n, n) = Some f ∧
       userAgent f =
         "Mozilla/5.0 (Macintosh; Intel Mac OS X 10_15_7) AppleWebKit/537.36 (KHTML, like Gecko) Chrome/112.0.5615.49 Safari/537.36".
Proof.
  destruct (generate (λ n, n)) as [f|] eqn:Hgen; [|vm_compute in Hgen; discriminate Hgen].
  destruct (generate_user_agent_complete (λ n, n) f Hgen) as (platform & version & _).
  exists f. split; [reflexivity|].
  vm_compute in Hgen. injection Hgen as <-. reflexivity.
Defined.

End FingerPrintMore.

Section DomMore.
Import Dom HoneypotDetector Samples.

Lemma prefixed_inj (p a b : string) : p +:+ a = p +:+ b → a = b.
Proof.
  induction p as [|c p IH]; [trivial|].
  change (String c (p +:+ a) = String c (p +:+ b) → a = b).
  intros [= H]. auto.
Qed.

Lemma is_honeypot_spec (e : Element) :
  is_honeypot e = true ↔ ∃ sel, sel ∈ honeypot_selectors ∧ matches sel e = true.
Proof.
  unfold is_honeypot. rewrite existsb_exists.
  split; intros (sel & Hsel & Hm); exists sel; split; auto;
    now apply list_elem_of_In.
Qed.

(** X6 — the log of the honeypot scan names exactly the flagged fields:
    it holds a "Potential honeypot detected" line with a label exactly when
    some field of the page with that label matches one of the selectors,
    and a "Leaving honeypot field empty" line exactly when such a field is
    not visible. *)
Theorem honeypot_log_names_flagged_fields (pg : Page) (l : string) :
  (("Potential honeypot detected: " +:+ l) ∈ identify_and_avoid_honeypots pg ↔
     ∃ e, e ∈ pg ∧ is_honeypot e = true ∧ label e = l) ∧
  (("Leaving honeypot field empty: " +:+ l) ∈ identify_and_avoid_honeypots pg ↔
     ∃ e, e ∈ pg ∧ is_honeypot e = true ∧ is_visible e = false ∧ label e = l).
Proof.
  assert (Hlog : ∀ line, line ∈ identify_and_avoid_honeypots pg ↔
            ∃ sel e, sel ∈ honeypot_selectors ∧ e ∈ pg ∧ matches sel e = true ∧
              (line = "Potential honeypot detected: " +:+ label e ∨
               (is_visible e = false ∧
                line = "Leaving honeypot field empty: " +:+ label e))).
  { intros line. unfold identify_and_avoid_honeypots.
    rewrite list_elem_of_In, in_flat_map. split.
    - intros (sel & Hsel & Hin). apply in_flat_map in Hin as (e & He & Hline).
      apply list_elem_of_In in Hsel, He.
      apply list_elem_of_filter in He as [Hm He].
      exists sel, e. repeat (split; [assumption|]).
      destruct Hline as [<-|Hline]; [now left|].
      destruct (is_visible e); cbn in Hline; [destruct Hline|].
      destruct Hline as [<-|[]]. right. auto.
    - intros (sel & e & Hsel & He & Hm & Hline).
      exists sel. split; [now apply list_elem_of_In|].
      apply in_flat_map. exists e. split.
      + apply list_elem_of_In, list_elem_of_filter. auto.
      + destruct Hline as [->|[Hv ->]]; [now left|].
        right. rewrite Hv. now left. }
  split; rewrite Hlog; split.
  - intros (sel & e & Hsel & He & Hm & [Heq|[_ Heq]]).
    + apply prefixed_inj in Heq. exists e. rewrite is_honeypot_spec. eauto.
    + discriminate Heq.
  - intros (e & He & Hhp & <-). apply is_honeypot_spec in Hhp as (sel & Hsel & Hm).
    exists sel, e. auto.
  - intros (sel & e & Hsel & He & Hm & [Heq|[Hv Heq]]).
    + discriminate Heq.
    + apply prefixed_inj in Heq. exists e. rewrite is_honeypot_spec. eauto 6.
  - intros (e & He & Hhp & Hv & <-). apply is_honeypot_spec in Hhp as (sel & Hsel & Hm).
    exists sel, e. auto 6.
Qed.

End DomMore.

Section SessionFrame.
Variable env : Env.
Variable P : Event → bool.

Lemma ks_refl (st : State) : keeps_session P st st.
Proof. repeat split. exists []. now rewrite app_nil_r. Qed.

Lemma ks_trans (st st1 st2 : State) :
  keeps_session P st st1 → keeps_session P st1 st2 → keeps_session P st st2.
Proof.
  intros (Hb1 & Hc1 & Hp1 & Hl1 & e1 & Ht1 & Hf1) (Hb2 & Hc2 & Hp2 & Hl2 & e2 & Ht2 & Hf2).
  repeat split; try congruence.
  exists (e1 ++ e2). rewrite Ht2, Ht1, app_assoc, forallb_app, Hf1, Hf2. auto.
Qed.

Lemma ks_tick (st : State) : keeps_session P st (tick st).
Proof. repeat split. exists []. cbn. now rewrite app_nil_r. Qed.

Lemma ks_record (ev : Event) (st : State) :
  P ev = true → keeps_session P st (record ev st).
Proof. intros Hev. repeat split. exists [ev]. cbn. now rewrite Hev. Qed.

Lemma ks_perform (op : Op) (ev : nat → Event) (st : State) r st' :
  (∀ n, P (ev n) = true) →
  perform env op ev st = (r, st') → keeps_session P st st'.
Proof.
  intros Hev. unfold perform.
  destruct (op_raises env (steps st) op); intros [= <- <-].
  - apply ks_tick.
  - apply (ks_trans _ _ _ (ks_tick st)), ks_record, Hev.
Qed.

Lemma ks_rotate_if_needed (st : State) r st' :
  rotate_if_needed env st = (r, st') → keeps_session P st st'.
Proof.
  unfold rotate_if_needed.
  destruct (ProxyRotator.rotate_if_needed _ _ _) as [[[|] rot]|];
    intros [= <- <-]; repeat split; exists []; cbn; now rewrite app_nil_r.
Qed.

End SessionFrame.

Lemma ks_weaken (P Q : Event → bool) (st st' : State) :
  (∀ ev, P ev = true → Q ev = true) →
  keeps_session P st st' → keeps_session Q st st'.
Proof.
  intros HPQ (Hb & Hc & Hp & Hl & evs & Ht & Hf). repeat split; try assumption.
  exists evs. split; [exact Ht|].
  rewrite forallb_forall in *. auto.
Qed.

Section ScanMore.
Variable env : Env.
Variable cfg : Config.

(** X7 — the inner loop over the time entries of one date is a filter:
    when it returns, the slots found are those found before followed by one
    slot for each non-empty time attribute inside the window, in the order
    of the page, none dropped and none repeated. *)
Theorem scan_times_is_filter (test_center : TestCenter) (date_str : string) :
  ∀ time_elements acc st slots st',
    scan_times cfg test_center date_str time_elements acc st = (Returned slots, st') →
    slots = acc ++ map (Scenario.slot_of (center_name test_center) date_str)
                       (List.filter (window_contains cfg) (present time_elements)).
Proof.
  induction time_elements as [|attr rest IH]; intros acc st slots st' Hrun.
  - cbn in Hrun. injection Hrun as <- <-. cbn. now rewrite app_nil_r.
  - cbn [scan_times] in Hrun.
    destruct attr as [[|c time_str]|];
      [now apply (IH _ _ _ _ Hrun)| |now apply (IH _ _ _ _ Hrun)].
    change (present (Some (String c time_str) :: rest))
      with (String c time_str :: present rest).
    cbn [List.filter]. unfold window_contains at 1.
    binds_in Hrun.
    destruct (Parse.hour_minute (String c time_str)) as [time|];
      binds_in Hrun; [|discriminate].
    destruct (Parse.hour_minute (earliest (time_preference cfg))) as [lo|];
      binds_in Hrun; [|discriminate].
    destruct (Parse.hour_minute (latest (time_preference cfg))) as [hi|];
      binds_in Hrun; [|discriminate].
    destruct (_ && _).
    + rewrite (IH _ _ _ _ Hrun), <- app_assoc. reflexivity.
    + now apply (IH _ _ _ _ Hrun).
Qed.

(** X8 — the inner loop raises exactly when some non-empty time attribute
    is not of the form integer:integer, or when there is a non-empty time
    attribute and one of the two times of the criteria is not of that form;
    in any case it leaves the state as it was. *)
Theorem scan_times_raises_iff (test_center : TestCenter) (date_str : string) :
  ∀ time_elements acc st,
    ∃ r, scan_times cfg test_center date_str time_elements acc st = (r, st) ∧
         (r = Raised ↔
            (∃ t, t ∈ present time_elements ∧ Parse.hour_minute t = None) ∨
            (present time_elements ≠ [] ∧
             (Parse.hour_minute (earliest (time_preference cfg)) = None ∨
              Parse.hour_minute (latest (time_preference cfg)) = None))).
Proof.
  induction time_elements as [|attr rest IH]; intros acc st.
  - eexists. split; [reflexivity|]. cbn. split; [discriminate|].
    intros [(t & Ht & _)|[Hc _]]; [inversion Ht|congruence].
  - cbn [scan_times].
    destruct attr as [[|c time_str]|]; [apply IH| |apply IH].
    change (present (Some (String c time_str) :: rest))
      with (String c time_str :: present rest).
    rewrite bind_run.
    destruct (Parse.hour_minute (String c time_str)) as [time|] eqn:Htime;
      cbn [lift mret M_ret raise].
    2:{ eexists. split; [reflexivity|]. split; [|reflexivity].
        intros _. left. exists (String c time_str). split; [left|exact Htime]. }
    rewrite bind_run.
    destruct (Parse.hour_minute (earliest (time_preference cfg))) as [lo|] eqn:Hlo;
      cbn [lift mret M_ret raise].
    2:{ eexists. split; [reflexivity|]. split; [|reflexivity].
        intros _. right. split; [discriminate|now left]. }
    rewrite bind_run.
    destruct (Parse.hour_minute (latest (time_preference cfg))) as [hi|] eqn:Hhi;
      cbn [lift mret M_ret raise].
    2:{ eexists. split; [reflexivity|]. split; [|reflexivity].
        intros _. right. split; [discriminate|now right]. }
    match goal with
    | |- context [if ?b then scan_times _ _ _ _ ?a1 else scan_times _ _ _ _ ?a2] =>
        destruct b; [destruct (IH a1 st) as (r & Hr & Hiff)
                    |destruct (IH a2 st) as (r & Hr & Hiff)]
    end; exists r; (split; [exact Hr|]); rewrite Hiff; split.
    all: try (intros [(t & Ht & Hnone)|[Hne [Hc|Hc]]];
              [left; exists t; split; [now right|exact Hnone]
              |discriminate Hc|discriminate Hc]).
    all: intros [(t & Ht & Hnone)|[_ [Hc|Hc]]]; try discriminate Hc;
         apply elem_of_cons in Ht as [->|Ht]; [congruence|eauto].
Qed.

End ScanMore.

Section CycleMore.
Variable env : Env.
Variable cfg : Config.

Lemma scan_dates_keeps (test_center : TestCenter) :
  ∀ date_elements acc st r st',
    scan_dates env cfg test_center date_elements acc st = (r, st') →
    keeps_session is_browsing st st'.
Proof.
  induction date_elements as [|attr rest IH]; intros acc st r st' Hrun.
  - cbn in Hrun. injection Hrun as <- <-. apply ks_refl.
  - cbn [scan_dates] in Hrun.
    destruct attr as [[|c date_str]|];
      [now apply (IH _ _ _ _ Hrun)| |now apply (IH _ _ _ _ Hrun)].
    destruct (Calendar.strptime (String c date_str)) as [d|];
      [|now apply (IH _ _ _ _ Hrun)].
    destruct (_ || _); [now apply (IH _ _ _ _ Hrun)|].
    destruct (negb _); [now apply (IH _ _ _ _ Hrun)|].
    unfold realistic_click, random_delay, try, wait_for_selector in Hrun.
    binds_in Hrun.
    destruct (perform env (Click _) _ st) as [[n|] s1] eqn:Hclick;
      apply (ks_perform env is_browsing) in Hclick; [|reflexivity| |reflexivity];
      binds_in Hrun.
    2:{ injection Hrun as <- <-. exact Hclick. }
    destruct (perform env (WaitForSelector _) _ s1) as [[m|] s2] eqn:Hwait;
      apply (ks_perform env is_browsing) in Hwait; [|reflexivity| |reflexivity];
      binds_in Hrun;
      apply (ks_trans _ _ _ _ Hclick), (ks_trans _ _ _ _ Hwait).
    + unfold ask in Hrun. binds_in Hrun.
      destruct (scan_times _ _ _ _ _ _) as [[acc'|] s3] eqn:Htimes.
      * apply scan_times_state in Htimes as ->.
        apply (ks_trans _ _ _ _ (ks_tick _ s2)). now apply (IH _ _ _ _ Hrun).
      * apply scan_times_state in Htimes as ->.
        injection Hrun as <- <-. apply ks_tick.
    + now apply (IH _ _ _ _ Hrun).
Qed.

(** What a scan does besides returning its list *)
Lemma check_available_slots_keeps (test_center : TestCenter) (st : State) r st' :
  check_available_slots env cfg test_center st = (r, st') →
  keeps_session is_browsing st st' ∧
  (r = Raised → ∃ n, op_raises env n (TakeScreenshot "slots_error") = true) ∧
  (∀ slots, r = Returned slots → Forall (suitable cfg test_center) slots).
Proof.
  intros Hrun. unfold check_available_slots, try in Hrun.
  match type of Hrun with
  | context [match ?body st with _ => _ end] =>
      destruct (body st) as [rb sb] eqn:Hbody
  end.
  assert (Hb : keeps_session is_browsing st sb ∧
               (∀ slots, rb = Returned slots → Forall (suitable cfg test_center) slots)).
  { clear Hrun. unfold search_test_center, wait_for_selector in Hbody.
    binds_in Hbody. unfold ask in Hbody at 1.
    destruct (search_result env (steps st) test_center) as [[|]|];
      binds_in Hbody; cbn [raise] in Hbody.
    - destruct (perform env (WaitForSelector _) _ (tick st)) as [[n|] s1] eqn:Hwait;
        apply (ks_perform env is_browsing) in Hwait; [|reflexivity| |reflexivity];
        binds_in Hbody.
      2:{ injection Hbody as <- <-. split; [|discriminate].
          apply (ks_trans _ _ _ _ (ks_tick _ st) Hwait). }
      unfold ask in Hbody. binds_in Hbody.
      destruct (scan_dates _ _ _ _ _ _) as [[found|] s2] eqn:Hdates;
        pose proof (scan_dates_keeps _ _ _ _ _ _ Hdates) as Hks; binds_in Hbody.
      + unfold emit, modify in Hbody. binds_in Hbody. injection Hbody as <- <-.
        split.
        * apply (ks_trans _ _ _ _ (ks_tick _ st)), (ks_trans _ _ _ _ Hwait),
            (ks_trans _ _ _ _ (ks_tick _ s1)), (ks_trans _ _ _ _ Hks).
          now apply ks_record.
        * intros slots [= <-].
          eapply scan_dates_suitable; [|exact Hdates]. constructor.
      + injection Hbody as <- <-. split; [|discriminate].
        apply (ks_trans _ _ _ _ (ks_tick _ st)), (ks_trans _ _ _ _ Hwait),
          (ks_trans _ _ _ _ (ks_tick _ s1)), Hks.
    - injection Hbody as <- <-. split; [apply ks_tick|].
      intros slots [= <-]. constructor.
    - injection Hbody as <- <-. split; [apply ks_tick|discriminate]. }
  destruct Hb as [Hks Hsuit].
  destruct rb as [slots|].
  - injection Hrun as <- <-. split; [exact Hks|]. split; [discriminate|exact Hsuit].
  - unfold screenshot in Hrun. binds_in Hrun. unfold perform in Hrun.
    destruct (op_raises env (steps sb) (TakeScreenshot "slots_error")) eqn:Hshot;
      binds_in Hrun; injection Hrun as <- <-.
    + split; [apply (ks_trans _ _ _ _ Hks), ks_tick|]. split; [eauto|discriminate].
    + split; [apply (ks_trans _ _ _ _ Hks), (ks_trans _ _ _ _ (ks_tick _ sb)),
               ks_record; reflexivity|].
      split; [discriminate|]. intros slots [= <-]. constructor.
Qed.

(** X9 — [check_available_slots] raises only when the screenshot it takes
    on an error ("slots_error") itself raises; when that screenshot never
    raises, the scan always returns a list. *)
Theorem check_available_slots_contained (test_center : TestCenter) (st : State) :
  ∃ r st',
    check_available_slots env cfg test_center st = (r, st') ∧
    (r = Raised → ∃ n, op_raises env n (TakeScreenshot "slots_error") = true) ∧
    ((∀ n, op_raises env n (TakeScreenshot "slots_error") = false) →
       ∃ slots, r = Returned slots).
Proof.
  destruct (check_available_slots env cfg test_center st) as [r st'] eqn:Hrun.
  destruct (check_available_slots_keeps _ _ _ _ Hrun) as (_ & Hraise & _).
  exists r, st'. split; [reflexivity|]. split; [exact Hraise|].
  intros Hok. destruct r as [slots|]; [eauto|].
  destruct (Hraise eq_refl) as [n Hn]. rewrite Hok in Hn. discriminate.
Qed.

(** X10 — criteria no day can satisfy give empty scans: when no preferred
    day lies between 0 and 6 (in particular with no preferred day at all),
    when the end of the date range precedes its start, or when the latest
    time precedes the earliest, every scan that returns returns the empty
    list. *)
Theorem unsatisfiable_criteria_give_no_slots
    (test_center : TestCenter) (st st' : State) (slots : list Slot) :
  check_available_slots env cfg test_center st = (Returned slots, st') →
  (∀ d, d ∈ preferred_days cfg → (d < 0 ∨ 6 < d)%Z) ∨
  Calendar.lt (end_date (date_range cfg)) (start_date (date_range cfg)) ∨
  (∃ lo hi, Parse.hour_minute (earliest (time_preference cfg)) = Some lo ∧
            Parse.hour_minute (latest (time_preference cfg)) = Some hi ∧
            (minutes hi < minutes lo)%Z) →
  slots = [].
Proof.
  intros Hrun Hbad.
  destruct (check_available_slots_keeps _ _ _ _ Hrun) as (_ & _ & Hsuit).
  specialize (Hsuit slots eq_refl).
  destruct slots as [|s slots]; [reflexivity|exfalso].
  apply Forall_cons in Hsuit as [(_ & (d & _ & Hlo & Hhi & Hday) & (t & lo & hi & _ & Elo & Ehi & Hwin)) _].
  destruct Hbad as [Hdays|[Hrange|(lo' & hi' & Elo' & Ehi' & Hinv)]].
  - specialize (Hdays _ Hday). unfold Calendar.weekday in Hdays.
    pose proof (Z.mod_pos_bound (Calendar.toordinal d + 6) 7). lia.
  - remember (start_date (date_range cfg)) as a eqn:Ha.
    remember (end_date (date_range cfg)) as b eqn:Hb. clear Ha Hb.
    unfold Calendar.le, Calendar.lt in *.
    destruct Hlo as [->|Hlo], Hhi as [->|Hhi]; lia.
  - rewrite Elo in Elo'. rewrite Ehi in Ehi'.
    injection Elo' as <-. injection Ehi' as <-. lia.
Qed.

(** What a booking attempt does besides returning its verdict *)
Lemma book_slot_keeps (slot : Slot) (st : State) r st' :
  book_slot env slot st = (r, st') →
  keeps_session is_cycle_event st st' ∧
  (r = Raised → ∃ n, op_raises env n (TakeScreenshot "booking_error") = true) ∧
  (r = Returned true → trace st' = trace st ++ confirmed_booking slot).
Proof.
  unfold book_slot, try, realistic_click, wait_for_selector, screenshot,
    notify_success, random_delay, emit.
  repeat first
    [ rewrite bind_run
    | progress unfold perform, ask, modify, lift, raise
    | progress cbn [steps tick record mret M_ret]
    | match goal with
      | |- context [if op_raises ?e ?n ?o then _ else _] =>
          let H := fresh "Hop" in destruct (op_raises e n o) eqn:H
      | |- context [match confirmation_text ?e ?n ?s with _ => _ end] =>
          destruct (confirmation_text e n s)
      | |- context [if confirms ?t then _ else _] =>
          destruct (confirms t)
      end ];
  intros [= <- <-];
  (split; [repeat (split; [reflexivity|]); eexists;
           (split; [cbn [trace tick record]; rewrite <- ?app_assoc; reflexivity|]);
           reflexivity|]);
  (split; [intros Hr; first [discriminate Hr | eauto]|]);
  intros Hr; try discriminate Hr;
  cbn [trace tick record]; rewrite <- ?app_assoc; reflexivity.
Qed.

(** X11 — [book_slot] raises only when the screenshot it takes on an
    error ("booking_error") itself raises.  When it returns [True] it has
    recorded exactly the attempt, the three clicks, the confirmation
    block, one notification for the slot and the confirmation screenshot,
    in this order. *)
Theorem book_slot_contained (slot : Slot) (st : State) :
  ∃ r st',
    book_slot env slot st = (r, st') ∧
    (r = Raised → ∃ n, op_raises env n (TakeScreenshot "booking_error") = true) ∧
    (r = Returned true → trace st' = trace st ++ confirmed_booking slot).
Proof.
  destruct (book_slot env slot st) as [r st'] eqn:Hrun.
  exists r, st'. split; [reflexivity|].
  destruct (book_slot_keeps _ _ _ _ Hrun) as (_ & Hraise & Htrue). auto.
Qed.

(** X12 — a confirmed booking can be reported as failed: when the three
    clicks succeed, the confirmation block appears and its text confirms,
    but the screenshot of the confirmation raises, [book_slot] returns
    [False] although the notification has been sent. *)
Theorem book_slot_false_after_notification (slot : Slot) (st : State) (text : string) :
  op_raises env (steps st) (Click (element_selector slot)) = false →
  op_raises env (1 + steps st) (Click ".SlotPicker-next") = false →
  op_raises env (2 + steps st) (Click "#confirm-changes") = false →
  op_raises env (3 + steps st) (WaitForSelector ".confirmation-block") = false →
  confirmation_text env (4 + steps st) slot = Some text →
  confirms text = true →
  op_raises env (5 + steps st) (TakeScreenshot "booking_confirmation") = true →
  ∃ st' evs,
    book_slot env slot st = (Returned false, st') ∧
    trace st' = trace st ++ evs ∧
    notifications evs = [(slot_test_center slot, slot_date slot, slot_time slot)].
Proof.
  cbn [Nat.add]. intros H0 H1 H2 H3 H4 H5 H6.
  unfold book_slot, try, realistic_click, wait_for_selector, screenshot,
    notify_success, random_delay, emit.
  repeat first
    [ rewrite bind_run
    | progress unfold perform, ask, modify, lift, raise
    | progress cbn [steps tick record mret M_ret]
    | rewrite H0 | rewrite H1 | rewrite H2 | rewrite H3 | rewrite H4
    | rewrite H5 | rewrite H6 ].
  do 2 eexists. split; [reflexivity|].
  split; [cbn [trace tick record]; rewrite <- ?app_assoc; reflexivity|reflexivity].
Qed.

Lemma check_each_keeps :
  ∀ centers st r st',
    check_each env cfg centers st = (r, st') →
    keeps_session is_cycle_event st st' ∧
    (r = Returned true →
       ∃ s s1, keeps_session is_cycle_event st s1 ∧
               trace st' = trace s1 ++ confirmed_booking s).
Proof.
  induction centers as [|tc rest IH]; intros st r st' Hrun.
  - cbn in Hrun. injection Hrun as <- <-. split; [apply ks_refl|discriminate].
  - cbn [check_each] in Hrun. unfold random_delay in Hrun. binds_in Hrun.
    destruct (rotate_if_needed env st) as [[b|] s0] eqn:Hrot;
      apply (ks_rotate_if_needed env is_cycle_event) in Hrot; binds_in Hrun.
    2:{ injection Hrun as <- <-. split; [exact Hrot|discriminate]. }
    destruct (check_available_slots env cfg tc s0) as [r1 s1] eqn:Hscan.
    apply check_available_slots_keeps in Hscan as (Hscan & _ & _).
    apply (ks_weaken is_browsing is_cycle_event) in Hscan;
      [|intros []; cbn; congruence].
    pose proof (ks_trans _ _ _ _ Hrot Hscan) as Hs1.
    destruct r1 as [[|x slots]|]; binds_in Hrun.
    + destruct (IH _ _ _ Hrun) as (Hks & Htrue). split.
      * apply (ks_trans _ _ _ _ Hs1 Hks).
      * intros Hr. destruct (Htrue Hr) as (s & s2 & Hs2 & Ht).
        exists s, s2. split; [apply (ks_trans _ _ _ _ Hs1 Hs2)|exact Ht].
    + destruct (head (sort_slots (x :: slots))) as [s|]; binds_in Hrun;
        cbn [raise] in Hrun.
      2:{ injection Hrun as <- <-. split; [exact Hs1|discriminate]. }
      destruct (book_slot env s s1) as [r2 s2] eqn:Hbook.
      apply book_slot_keeps in Hbook as (Hbook & _ & Hconf).
      pose proof (ks_trans _ _ _ _ Hs1 Hbook) as Hs2.
      destruct r2 as [[|]|]; binds_in Hrun.
      * injection Hrun as <- <-. split; [exact Hs2|]. intros _.
        exists s, s1. auto.
      * destruct (IH _ _ _ Hrun) as (Hks & Htrue). split.
        -- apply (ks_trans _ _ _ _ Hs2 Hks).
        -- intros Hr. destruct (Htrue Hr) as (s' & s3 & Hs3 & Ht).
           exists s', s3. split; [apply (ks_trans _ _ _ _ Hs2 Hs3)|exact Ht].
      * injection Hrun as <- <-. split; [exact Hs2|discriminate].
    + injection Hrun as <- <-. split; [exact Hs1|discriminate].
Qed.

Lemma run_monitoring_cycle_keeps (st : State) :
  ∃ b st',
    run_monitoring_cycle env cfg st = (Returned b, st') ∧
    browser st' = browser st ∧ context st' = context st ∧ page st' = page st ∧
    (logged_in st = true → logged_in st' = true) ∧
    (b = true → logged_in st' = true) ∧
    ∃ evs, trace st' = trace st ++ evs ∧ forallb is_cycle_event evs = true ∧
           (b = true → ∃ s evs0, evs = evs0 ++ confirmed_booking s).
Proof.
  unfold run_monitoring_cycle, try.
  match goal with
  | |- context [match ?body st with _ => _ end] =>
      destruct (body st) as [rb sb] eqn:Hbody
  end.
  enough (Hb : browser sb = browser st ∧ context sb = context st ∧ page sb = page st ∧
               (logged_in st = true → logged_in sb = true) ∧
               (rb = Returned true → logged_in sb = true) ∧
               ∃ evs, trace sb = trace st ++ evs ∧ forallb is_cycle_event evs = true ∧
                      (rb = Returned true → ∃ s evs0, evs = evs0 ++ confirmed_booking s)).
  { destruct Hb as (H1 & H2 & H3 & H4 & H5 & evs & H6 & H7 & H8).
    destruct rb as [b|]; eexists _, sb; (split; [reflexivity|]);
      repeat (split; [assumption|]).
    - split; [intros ->; auto|]. exists evs. repeat split; auto.
      intros ->. auto.
    - split; [discriminate|]. exists evs. repeat split; auto. discriminate. }
  assert (Hloop : ∀ s0 r s1,
            check_each env cfg (test_centers cfg) s0 = (r, s1) →
            browser s0 = browser st → context s0 = context st → page s0 = page st →
            trace s0 = trace st → logged_in s0 = true →
            browser s1 = browser st ∧ context s1 = context st ∧ page s1 = page st ∧
            (logged_in st = true → logged_in s1 = true) ∧
            (r = Returned true → logged_in s1 = true) ∧
            ∃ evs, trace s1 = trace st ++ evs ∧ forallb is_cycle_event evs = true ∧
                   (r = Returned true → ∃ s evs0, evs = evs0 ++ confirmed_booking s)).
  { intros s0 r s1 Hloop Hb0 Hc0 Hp0 Ht0 Hl0.
    destruct (check_each_keeps _ _ _ _ Hloop)
      as ((Hb & Hc & Hp & Hl & evs & Ht & Hf) & Htrue).
    repeat (split; [congruence|]).
    exists evs. split; [congruence|]. split; [exact Hf|].
    intros Hr. destruct (Htrue Hr) as (s & s2 & (_ & _ & _ & _ & evs0 & Ht2 & _) & Hconf).
    exists s, evs0. rewrite Hconf, Ht2, <- app_assoc in Ht.
    apply app_inv_head in Ht. auto. }
  unfold login, get_state in Hbody. binds_in Hbody.
  destruct (logged_in st) eqn:Hlog; binds_in Hbody; rewrite ?Hlog in Hbody;
    binds_in Hbody.
  - apply (Hloop _ _ _ Hbody); auto.
  - unfold ask in Hbody. binds_in Hbody.
    destruct (login_result env (steps st)) as [[|]|];
      unfold modify, raise in Hbody; binds_in Hbody.
    + apply (Hloop _ _ _ Hbody); reflexivity.
    + injection Hbody as <- <-. repeat (split; [first [reflexivity|discriminate]|]).
      exists []. cbn. rewrite app_nil_r. repeat split. discriminate.
    + injection Hbody as <- <-. repeat (split; [first [reflexivity|discriminate]|]).
      exists []. cbn. rewrite app_nil_r. repeat split. discriminate.
Qed.

(** X13 — a monitoring cycle never raises: it always returns [True] or
    [False].  So a [try] around a cycle behaves as the cycle alone,
    whatever its handler: the handler of the loop of [run], which would
    restart the session, is never entered. *)
Theorem run_monitoring_cycle_never_raises (st : State) :
  (∃ b st', run_monitoring_cycle env cfg st = (Returned b, st')) ∧
  ∀ handler : M bool,
    try (run_monitoring_cycle env cfg) handler st = run_monitoring_cycle env cfg st.
Proof.
  destruct (run_monitoring_cycle_keeps st) as (b & st' & Hrun & _).
  split; [eauto|]. intros handler. unfold try at 1. rewrite Hrun. reflexivity.
Qed.

(** X14 — a cycle returns [True] only at the end of a confirmed booking:
    the last events it recorded are the attempt on a slot, the three
    clicks, the confirmation block, the notification for that slot and the
    confirmation screenshot; the session is then logged in. *)
Theorem run_monitoring_cycle_true_is_confirmed (st st' : State) :
  run_monitoring_cycle env cfg st = (Returned true, st') →
  logged_in st' = true ∧
  ∃ s evs, trace st' = trace st ++ evs ++ confirmed_booking s.
Proof.
  intros Hrun.
  destruct (run_monitoring_cycle_keeps st)
    as (b & st1 & Hrun' & _ & _ & _ & _ & Hlog & evs & Ht & _ & Hconf).
  rewrite Hrun in Hrun'. injection Hrun' as <- <-.
  split; [auto|]. destruct (Hconf eq_refl) as (s & evs0 & ->). eauto.
Qed.

(** Every notification of an attempt to book is for the slot attempted. *)
Lemma book_slot_notifies (slot : Slot) (st : State) r st' :
  book_slot env slot st = (r, st') →
  ∃ evs, trace st' = trace st ++ BookingAttempt slot :: evs ∧
         attempts evs = [] ∧
         (notifications evs = [] ∨
          notifications evs = [(slot_test_center slot, slot_date slot, slot_time slot)]).
Proof.
  unfold book_slot, try, realistic_click, wait_for_selector, screenshot,
    notify_success, random_delay, emit.
  repeat first
    [ rewrite bind_run
    | progress unfold perform, ask, modify, lift, raise
    | progress cbn [steps tick record mret M_ret]
    | match goal with
      | |- context [if op_raises ?e ?n ?o then _ else _] =>
          destruct (op_raises e n o)
      | |- context [match confirmation_text ?e ?n ?s with _ => _ end] =>
          destruct (confirmation_text e n s)
      | |- context [if confirms ?t then _ else _] =>
          destruct (confirms t)
      end ];
  intros [= <- <-]; cbn [trace tick record]; rewrite <- ?app_assoc; cbn [app];
  eexists; (split; [reflexivity|]); split; first [reflexivity | auto].
Qed.

Lemma notifications_app (evs1 evs2 : list Event) :
  notifications (evs1 ++ evs2) = notifications evs1 ++ notifications evs2.
Proof. apply omap_app. Qed.

Lemma attempts_app (evs1 evs2 : list Event) :
  attempts (evs1 ++ evs2) = attempts evs1 ++ attempts evs2.
Proof. apply omap_app. Qed.

(** A trace in which every notification has its attempt: there are no
    more notifications than attempts. *)
Lemma check_each_notifications :
  ∀ centers st r st',
    check_each env cfg centers st = (r, st') →
    ∃ evs, trace st' = trace st ++ evs ∧
           (length (notifications evs) ≤ length (attempts evs))%nat.
Proof.
  assert (Hquiet : ∀ evs, forallb is_browsing evs = true →
                     notifications evs = [] ∧ attempts evs = []).
  { induction evs as [|ev evs IH]; [auto|]. cbn [forallb].
    intros [Hev Hevs]%andb_true_iff. destruct (IH Hevs) as [Hn Ha].
    destruct ev; try discriminate Hev; cbn; auto. }
  induction centers as [|tc rest IH]; intros st r st' Hrun.
  - cbn in Hrun. injection Hrun as <- <-. exists []. rewrite app_nil_r. auto.
  - cbn [check_each] in Hrun. unfold random_delay in Hrun. binds_in Hrun.
    destruct (rotate_if_needed env st) as [[b|] s0] eqn:Hrot;
      apply (ks_rotate_if_needed env is_browsing) in Hrot; binds_in Hrun.
    2:{ injection Hrun as <- <-.
        destruct Hrot as (_ & _ & _ & _ & evs & Ht & Hf).
        exists evs. split; [exact Ht|]. destruct (Hquiet _ Hf) as [-> ->]. reflexivity. }
    destruct (check_available_slots env cfg tc s0) as [r1 s1] eqn:Hscan.
    apply check_available_slots_keeps in Hscan as (Hscan & _ & _).
    destruct (ks_trans _ _ _ _ Hrot Hscan) as (_ & _ & _ & _ & evs1 & Ht1 & Hf1).
    destruct (Hquiet _ Hf1) as [Hn1 Ha1].
    assert (Hstop : ∃ evs, trace s1 = trace st ++ evs ∧
              (length (notifications evs) ≤ length (attempts evs))%nat).
    { exists evs1. split; [exact Ht1|]. rewrite Hn1, Ha1. reflexivity. }
    assert (Hgo : ∀ s2 evs2 r' st2,
              trace s2 = trace s1 ++ evs2 →
              (length (notifications evs2) ≤ length (attempts evs2))%nat →
              check_each env cfg rest s2 = (r', st2) →
              ∃ evs, trace st2 = trace st ++ evs ∧
                     (length (notifications evs) ≤ length (attempts evs))%nat).
    { intros s2 evs2 r' st2 Ht2 Hle Hrest.
      destruct (IH _ _ _ Hrest) as (evs3 & Ht3 & Hle3).
      exists (evs1 ++ evs2 ++ evs3). split.
      - rewrite Ht3, Ht2, Ht1, <- !app_assoc. reflexivity.
      - rewrite !notifications_app, !attempts_app, !length_app, Hn1, Ha1.
        cbn [length Nat.add]. lia. }
    destruct r1 as [[|x slots]|]; binds_in Hrun.
    + apply (Hgo s1 [] _ _ (eq_sym (app_nil_r _)) (le_n _) Hrun).
    + destruct (head (sort_slots (x :: slots))) as [s|]; binds_in Hrun;
        cbn [raise] in Hrun.
      2:{ injection Hrun as <- <-. exact Hstop. }
      destruct (book_slot env s s1) as [r2 s2] eqn:Hbook.
      apply book_slot_notifies in Hbook as (evs2 & Ht2 & Ha2 & Hn2).
      assert (Hle : (length (notifications (BookingAttempt s :: evs2))
                     ≤ length (attempts (BookingAttempt s :: evs2)))%nat).
      { change (notifications (BookingAttempt s :: evs2)) with (notifications evs2).
        change (attempts (BookingAttempt s :: evs2)) with (s :: attempts evs2).
        rewrite Ha2. destruct Hn2 as [-> | ->]; cbn; lia. }
      assert (Hhere : ∃ evs, trace s2 = trace st ++ evs ∧
                (length (notifications evs) ≤ length (attempts evs))%nat).
      { exists (evs1 ++ BookingAttempt s :: evs2). split.
        - rewrite Ht2, Ht1, <- app_assoc. reflexivity.
        - rewrite notifications_app, attempts_app, !length_app, Hn1, Ha1.
          cbn [length Nat.add]. exact Hle. }
      destruct r2 as [[|]|]; binds_in Hrun.
      * injection Hrun as <- <-. exact Hhere.
      * apply (Hgo s2 _ _ _ Ht2 Hle Hrun).
      * injection Hrun as <- <-. exact Hhere.
    + injection Hrun as <- <-. exact Hstop.
Qed.

Lemma run_monitoring_cycle_notifications (st : State) r st' evs :
  run_monitoring_cycle env cfg st = (r, st') →
  trace st' = trace st ++ evs →
  (length (notifications evs) ≤ length (attempts evs))%nat.
Proof.
  intros Hrun Ht. unfold run_monitoring_cycle, try in Hrun.
  match type of Hrun with
  | context [match ?body st with _ => _ end] =>
      destruct (body st) as [rb sb] eqn:Hbody
  end.
  assert (Hst : st' = sb) by (destruct rb; injection Hrun as _ <-; reflexivity).
  subst sb. clear Hrun.
  assert (Hloop : ∀ s0, trace s0 = trace st →
            check_each env cfg (test_centers cfg) s0 = (rb, st') →
            (length (notifications evs) ≤ length (attempts evs))%nat).
  { intros s0 H0 Hrun. destruct (check_each_notifications _ _ _ _ Hrun) as (evs' & Ht' & Hle).
    rewrite H0, Ht in Ht'. apply app_inv_head in Ht' as ->. exact Hle. }
  assert (Hnone : trace st' = trace st →
            (length (notifications evs) ≤ length (attempts evs))%nat).
  { intros H0.
    assert (evs = []) as ->
      by (apply (app_inv_head (trace st)); rewrite app_nil_r; congruence).
    reflexivity. }
  unfold login, get_state in Hbody. binds_in Hbody.
  destruct (logged_in st) eqn:Hlog; binds_in Hbody; rewrite ?Hlog in Hbody;
    binds_in Hbody.
  - apply (Hloop st eq_refl Hbody).
  - unfold ask in Hbody. binds_in Hbody.
    destruct (login_result env (steps st)) as [[|]|];
      unfold modify, raise in Hbody; binds_in Hbody; cbn [negb] in Hbody.
    + apply (Hloop (set_logged_in true (tick st)) eq_refl Hbody).
    + injection Hbody as _ <-. apply Hnone. reflexivity.
    + injection Hbody as _ <-. apply Hnone. reflexivity.
Qed.

(** X15 — when no scan of the cycle finds a slot, the cycle attempts no
    booking, sends no notification and returns [False]. *)
Theorem no_slots_no_attempt (st st' : State) (r : Res bool) (evs : list Event) :
  run_monitoring_cycle env cfg st = (r, st') →
  trace st' = trace st ++ evs →
  (∀ c slots, Scanned c slots ∈ evs → slots = []) →
  attempts evs = [] ∧ notifications evs = [] ∧ r = Returned false.
Proof.
  intros Hrun Ht Hempty.
  pose proof (run_monitoring_cycle_notifications _ _ _ _ Hrun Ht) as Hle.
  destruct (run_monitoring_cycle_pattern env cfg st r st' Hrun)
    as (ds & (evs' & Ht' & <-) & Hpl).
  rewrite Ht' in Ht. apply app_inv_head in Ht as <-.
  assert (Hno : attempts evs' = []).
  { rewrite attempts_decisions.
    destruct (attempted (decisions evs')) as [|s l] eqn:Hatt; [reflexivity|exfalso].
    assert (Hs : s ∈ attempted (decisions evs')) by (rewrite Hatt; left).
    unfold attempted in Hs. apply list_elem_of_omap in Hs as (d & Hd & Hds).
    destruct d as [|s0]; [discriminate|]. injection Hds as ->.
    apply list_elem_of_lookup in Hd as [i Hi].
    destruct (per_location_attempt _ _ Hpl i s Hi) as (j & c & slots & _ & Hj & Hs).
    assert (Hin : Scan c slots ∈ decisions evs')
      by (eapply list_elem_of_lookup_2, Hj).
    unfold decisions in Hin. apply list_elem_of_omap in Hin as (ev & Hev & Hsc).
    destruct ev; try discriminate. injection Hsc as -> ->.
    rewrite (Hempty _ _ Hev) in Hs. discriminate. }
  split; [exact Hno|].
  split.
  { rewrite Hno in Hle. destruct (notifications evs'); [reflexivity|cbn in Hle; lia]. }
  destruct (run_monitoring_cycle_keeps st)
    as (b & st1 & Hrun' & _ & _ & _ & _ & _ & evs1 & Ht1 & _ & Hconf).
  rewrite Hrun in Hrun'. injection Hrun' as -> <-.
  destruct b; [exfalso|reflexivity].
  destruct (Hconf eq_refl) as (s & evs0 & ->).
  rewrite Ht' in Ht1. apply app_inv_head in Ht1 as ->.
  unfold attempts in Hno. rewrite omap_app in Hno.
  apply app_eq_nil in Hno as [_ Hno]. discriminate.
Qed.

End CycleMore.

(** ** The loop over the locations *)

Section LoopFacts.
Variable env : Env.
Variable cfg : Config.

Lemma decisions_app (evs1 evs2 : list Event) :
  decisions (evs1 ++ evs2) = decisions evs1 ++ decisions evs2.
Proof. unfold decisions. apply omap_app. Qed.




End LoopFacts.

Section LoopScenario.
Import Scenario Cases.


(** An attempt that raises ends the cycle: when the click on the slot and
    the screenshot of the error both raise at A, the cycle returns [False]
    and B is not scanned. *)
Lemma scenario_attempt_raises_ends_cycle :
  ∃ st',
    run_monitoring_cycle slippery criteria start = (Returned false, st') ∧
    decisions (trace st')
      = [Scan "A" [A_0603_1000; A_0605_0930]; Attempt A_0603_1000].
Proof.
  eexists. split; [vm_compute; reflexivity|]. vm_compute. reflexivity.
Qed.

End LoopScenario.

Section SessionMore.
Variable env : Env.

(** What provisioning does to the proxy and which browser it launches *)
Lemma setup_browser_proxy (st : State) :
  ∃ r st' pv,
    setup_browser env st = (r, st') ∧
    trace st' = trace st ++ pv ∧
    proxy_rotator st' = proxy_rotator st ∧
    logged_in st' = logged_in st ∧
    (∀ h url, BrowserLaunched h url ∈ pv →
       ProxyRotator.get_proxy_url (proxy_rotator st) = Some url) ∧
    (ProxyRotator.get_proxy_url (proxy_rotator st) = None →
       r = Raised ∧ browser st' = browser st ∧ context st' = context st ∧
       page st' = page st ∧ (pv = [] ∨ pv = [PlaywrightStarted])).
Proof.
  unfold setup_browser.
  repeat first
    [ rewrite bind_run
    | progress unfold perform, ask, get_state, modify, lift, raise
    | progress cbn [steps tick record trace proxy_rotator set_browser set_context
                    set_page logged_in browser context page mret M_ret]
    | match goal with
      | |- context [if op_raises ?e ?n ?o then _ else _] =>
          destruct (op_raises e n o)
      | |- context [match FingerPrintGenerator.generate ?d with _ => _ end] =>
          destruct (FingerPrintGenerator.generate d)
      | |- context [match ProxyRotator.get_proxy_url ?r with _ => _ end] =>
          let H := fresh "Hurl" in destruct (ProxyRotator.get_proxy_url r) eqn:H
      end ];
  do 3 eexists; (split; [reflexivity|]);
  cbn [trace logged_in browser context page tick record set_browser set_context
       set_page proxy_rotator];
  (split; [rewrite <- ?app_assoc; first [reflexivity | symmetry; apply app_nil_r]|]);
  (split; [reflexivity|]); (split; [reflexivity|]);
  (split;
   [ intros h url Hin;
     repeat (apply elem_of_cons in Hin as [Heq|Hin];
             [first [discriminate Heq | injection Heq as -> ->; reflexivity]|]);
     apply elem_of_nil in Hin; destruct Hin
   | intros Hnone; first [discriminate Hnone | auto 10] ]).
Qed.

(** X16 — [restart_session] restarts on the proxy that is current: it
    never rotates (the rotator is the same afterwards), and the browser it
    launches is given the URL of the rotator's current endpoint. *)
Theorem restart_session_keeps_proxy (st : State) :
  ∃ r st' evs,
    restart_session env st = (r, st') ∧
    trace st' = trace st ++ evs ∧
    proxy_rotator st' = proxy_rotator st ∧
    ∀ h url, BrowserLaunched h url ∈ evs →
      ProxyRotator.get_proxy_url (proxy_rotator st) = Some url.
Proof.
  unfold restart_session. rewrite bind_run. cbn [get_state].
  destruct (close_if_open_run env (page st) PageClose PageClosed st)
    as (r1 & st1 & E1 & _ & _ & _ & _ & Hr1 & H1); rewrite bind_run, E1.
  assert (Hq1 : ∃ e1, trace st1 = trace st ++ e1 ∧
                       ∀ h url, BrowserLaunched h url ∉ e1).
  { destruct H1 as [[_ Ht]|[_ Ht]].
    - exists (event_of PageClosed (page st)). split; [exact Ht|].
      intros h url Hin. destruct (page st); cbn in Hin; [|inversion Hin].
      apply list_elem_of_singleton in Hin. discriminate.
    - exists []. rewrite app_nil_r. split; [exact Ht|]. intros h url Hin. inversion Hin. }
  destruct Hq1 as (e1 & Ht1 & Hn1).
  destruct r1 as [[]|].
  2:{ exists Raised, st1, e1. repeat split; auto. intros h url Hin. now apply Hn1 in Hin. }
  destruct (close_if_open_run env (context st) ContextClose ContextClosed st1)
    as (r2 & st2 & E2 & _ & _ & _ & _ & Hr2 & H2); rewrite bind_run, E2.
  assert (Hq2 : ∃ e2, trace st2 = trace st ++ e2 ∧
                       ∀ h url, BrowserLaunched h url ∉ e2).
  { destruct H2 as [[_ Ht]|[_ Ht]].
    - exists (e1 ++ event_of ContextClosed (context st)).
      rewrite Ht, Ht1, app_assoc. split; [reflexivity|].
      intros h url Hin. apply elem_of_app in Hin as [Hin|Hin]; [now apply Hn1 in Hin|].
      destruct (context st); cbn in Hin; [|inversion Hin].
      apply list_elem_of_singleton in Hin. discriminate.
    - exists e1. split; [congruence|exact Hn1]. }
  destruct Hq2 as (e2 & Ht2 & Hn2).
  destruct r2 as [[]|].
  2:{ exists Raised, st2, e2. repeat split; auto; [congruence|].
      intros h url Hin. now apply Hn2 in Hin. }
  destruct (close_if_open_run env (browser st) BrowserClose BrowserClosed st2)
    as (r3 & st3 & E3 & _ & _ & _ & _ & Hr3 & H3); rewrite bind_run, E3.
  assert (Hq3 : ∃ e3, trace st3 = trace st ++ e3 ∧
                       ∀ h url, BrowserLaunched h url ∉ e3).
  { destruct H3 as [[_ Ht]|[_ Ht]].
    - exists (e2 ++ event_of BrowserClosed (browser st)).
      rewrite Ht, Ht2, app_assoc. split; [reflexivity|].
      intros h url Hin. apply elem_of_app in Hin as [Hin|Hin]; [now apply Hn2 in Hin|].
      destruct (browser st); cbn in Hin; [|inversion Hin].
      apply list_elem_of_singleton in Hin. discriminate.
    - exists e2. split; [congruence|exact Hn2]. }
  destruct Hq3 as (e3 & Ht3 & Hn3).
  destruct r3 as [[]|].
  2:{ exists Raised, st3, e3. repeat split; auto; [congruence|].
      intros h url Hin. now apply Hn3 in Hin. }
  rewrite bind_run. cbn [modify].
  destruct (setup_browser_proxy (set_logged_in false st3))
    as (r & st' & pv & E & Ht & Hrot & _ & Hurl & _).
  rewrite E. exists r, st', (e3 ++ pv).
  cbn [trace proxy_rotator set_logged_in] in *.
  split; [reflexivity|]. split; [rewrite Ht, Ht3, app_assoc; reflexivity|].
  split; [congruence|].
  intros h url Hin. apply elem_of_app in Hin as [Hin|Hin]; [now apply Hn3 in Hin|].
  rewrite <- Hurl with (h := h); [congruence|exact Hin].
Qed.

(** X17 — provisioning needs a current proxy: when the rotator's index
    lies outside its pool (always so on an empty pool), [setup_browser]
    raises before any browser is launched; at most the start of Playwright
    is recorded and the three handles are what they were. *)
Theorem setup_browser_without_proxy (st : State) :
  (length (ProxyRotator.proxies (proxy_rotator st))
     ≤ ProxyRotator.current_index (proxy_rotator st))%nat →
  ∃ st' pv,
    setup_browser env st = (Raised, st') ∧
    trace st' = trace st ++ pv ∧ (pv = [] ∨ pv = [PlaywrightStarted]) ∧
    browser st' = browser st ∧ context st' = context st ∧ page st' = page st.
Proof.
  intros Hout.
  assert (Hnone : ProxyRotator.get_proxy_url (proxy_rotator st) = None).
  { unfold ProxyRotator.get_proxy_url, ProxyRotator.get_current_proxy.
    now rewrite (proj2 (lookup_ge_None _ _) Hout). }
  destruct (setup_browser_proxy st) as (r & st' & pv & E & Ht & _ & _ & _ & Hfail).
  destruct (Hfail Hnone) as (-> & Hb & Hc & Hp & Hpv).
  exists st', pv. auto 10.
Qed.

End SessionMore.

Section RunMore.
Variable env : Env.
Variable cfg : Config.

Lemma event_of_teardown (ev : nat → Event) (h : option nat) :
  (∀ i, is_teardown (ev i) = true) → forallb is_teardown (event_of ev h) = true.
Proof. intros Hev. destruct h; cbn; [now rewrite Hev|reflexivity]. Qed.

(** The [finally] block closes what is open, in order, until a close
    raises. *)
Lemma clean_up_run (st : State) :
  ∃ r st' td,
    clean_up env st = (r, st') ∧
    trace st' = trace st ++ td ∧
    td `prefix_of` teardown_events st ∧
    (r = Returned tt → td = teardown_events st).
Proof.
  unfold clean_up. rewrite bind_run. cbn [get_state].
  destruct (close_if_open_run env (page st) PageClose PageClosed st)
    as (r1 & st1 & E1 & Hp1 & Hc1 & Hb1 & _ & _ & [[-> Ht1]|[-> Ht1]]);
    rewrite bind_run, E1.
  2:{ exists Raised, st1, []. rewrite app_nil_r.
      repeat split; [exact Ht1|apply prefix_nil|discriminate]. }
  rewrite bind_run. cbn [get_state]. rewrite Hc1.
  destruct (close_if_open_run env (context st) ContextClose ContextClosed st1)
    as (r2 & st2 & E2 & Hp2 & Hc2 & Hb2 & _ & _ & [[-> Ht2]|[-> Ht2]]);
    rewrite bind_run, E2.
  2:{ exists Raised, st2, (event_of PageClosed (page st)).
      repeat split; [congruence|apply prefix_app_r; reflexivity|discriminate]. }
  rewrite bind_run. cbn [get_state]. rewrite Hb2, Hb1.
  destruct (close_if_open_run env (browser st) BrowserClose BrowserClosed st2)
    as (r3 & st3 & E3 & Hp3 & Hc3 & Hb3 & _ & _ & [[-> Ht3]|[-> Ht3]]);
    rewrite E3.
  2:{ exists Raised, st3,
        (event_of PageClosed (page st) ++ event_of ContextClosed (context st)).
      repeat split; [rewrite Ht3, Ht2, Ht1, <- app_assoc; reflexivity| |discriminate].
      unfold teardown_events. rewrite app_assoc. apply prefix_app_r. reflexivity. }
  exists (Returned tt), st3, (teardown_events st).
  repeat split; [|reflexivity].
  rewrite Ht3, Ht2, Ht1. unfold teardown_events. now rewrite <- !app_assoc.
Qed.

(** The loop never leaves the session it was started in. *)
Lemma supervise_keeps :
  ∀ fuel st r st',
    supervise env cfg fuel st = (r, st') →
    browser st' = browser st ∧ context st' = context st ∧ page st' = page st ∧
    ∃ evs, trace st' = trace st ++ evs ∧ forallb is_cycle_event evs = true ∧
           (r = Returned true → ∃ s evs0, evs = evs0 ++ confirmed_booking s) ∧
           (r = Raised → (check_interval cfg).2 < (check_interval cfg).1)%Z.
Proof.
  induction fuel as [|fuel IH]; intros st r st' Hrun.
  - cbn in Hrun. injection Hrun as <- <-. repeat split.
    exists []. rewrite app_nil_r. repeat split; discriminate.
  - cbn [supervise] in Hrun. rewrite bind_run in Hrun. unfold try in Hrun at 1.
    destruct (run_monitoring_cycle_keeps env cfg st)
      as (b & s1 & Hcycle & Hb & Hc & Hp & _ & _ & evs & Ht & Hf & Hconf).
    rewrite Hcycle in Hrun. destruct b.
    + cbn [mret M_ret] in Hrun. injection Hrun as <- <-.
      repeat (split; [assumption|]). exists evs. repeat split; auto. discriminate.
    + unfold randint in Hrun. rewrite bind_run in Hrun.
      destruct ((check_interval cfg).1 <=? (check_interval cfg).2)%Z eqn:Hint.
      * cbn [mret M_ret] in Hrun.
        destruct (IH _ _ _ Hrun) as (Hb' & Hc' & Hp' & evs' & Ht' & Hf' & Hconf' & Hraise').
        repeat (split; [congruence|]).
        exists (evs ++ evs'). rewrite Ht', Ht, app_assoc, forallb_app, Hf, Hf'.
        repeat split; auto.
        intros Hr. destruct (Hconf' Hr) as (s & evs0 & ->).
        exists s, (evs ++ evs0). now rewrite app_assoc.
      * cbn [raise] in Hrun. injection Hrun as <- <-.
        repeat (split; [assumption|]). exists evs. repeat split; auto.
        -- discriminate.
        -- intros _. apply Z.leb_gt in Hint. exact Hint.
Qed.

(** X19 — when the loop of [run] is left through its [break], the events
    recorded last are those of a confirmed booking: the attempt, the three
    clicks, the confirmation block, the notification and the confirmation
    screenshot. *)
Theorem loop_ends_after_confirmed_booking (fuel : nat) (st st' : State) :
  supervise env cfg fuel st = (Returned true, st') →
  ∃ evs s, trace st' = trace st ++ evs ++ confirmed_booking s.
Proof.
  intros Hrun.
  destruct (supervise_keeps _ _ _ _ Hrun) as (_ & _ & _ & evs & Ht & _ & Hconf & _).
  destruct (Hconf eq_refl) as (s & evs0 & ->). eauto.
Qed.

(** X20 — with a check interval whose minimum exceeds its maximum the
    loop does not survive its first unsuccessful cycle: drawing the waiting
    time raises, so whatever the number of cycles allowed, the run does
    what it does when one cycle is allowed, and it is over by then. *)
Theorem run_with_inverted_interval (fuel : nat) (st : State) :
  ((check_interval cfg).2 < (check_interval cfg).1)%Z →
  run env cfg (S fuel) st = run env cfg 1 st ∧
  ∀ st', run env cfg (S fuel) st ≠ (Returned false, st').
Proof.
  intros Hinv.
  assert (Hsup : ∀ s, supervise env cfg (S fuel) s = supervise env cfg 1 s ∧
                      ∀ s', supervise env cfg (S fuel) s ≠ (Returned false, s')).
  { intros s. cbn [supervise]. rewrite !bind_run. unfold try.
    destruct (run_monitoring_cycle_keeps env cfg s) as (b & s1 & Hcycle & _).
    rewrite Hcycle. destruct b; [split; [reflexivity|discriminate]|].
    unfold randint. apply Z.leb_gt in Hinv. rewrite !bind_run, Hinv.
    split; [reflexivity|discriminate]. }
  unfold run. rewrite !bind_run.
  destruct (setup_browser env st) as [[[]|] s0].
  - destruct (Hsup s0) as [-> Hnf].
    split; [reflexivity|].
    destruct (supervise env cfg 1 s0) as [[[|]|] s1] eqn:E1.
    + unfold finally. destruct (clean_up env s1) as [[[]|] sc]; discriminate.
    + exfalso. destruct (Hsup s0) as [Heq Hnf']. rewrite <- Heq in E1.
      exact (Hnf' _ E1).
    + unfold finally. destruct (clean_up env s1) as [[[]|] sc]; discriminate.
  - split; [reflexivity|].
    unfold finally. destruct (clean_up env s0) as [[[]|] sc]; discriminate.
Qed.

End RunMore.

Section CloudflareFacts.
Import CloudflareBypass.

(** X21 — [handle_cf_challenge] returns [True] exactly when the challenge
    marker was found and the wait for the challenge to clear succeeded; it
    raises only errors whose text does not contain "Timeout": the error of
    the detection, the error of the screenshot, or its own "Failed to pass
    Cloudflare challenge" when the challenge did not clear and the
    screenshot was taken. *)
Theorem handle_cf_challenge_true_iff (p : Page) :
  (handle_cf_challenge p = Ok true ↔
     detection p = Ok true ∧ ∃ u, resolution p = Ok u) ∧
  (∀ msg, handle_cf_challenge p = Error msg →
     Text.contains "Timeout" msg = false ∧
     (detection p = Error msg ∨
      (detection p = Ok true ∧ (∃ m, resolution p = Error m) ∧
       (snapshot p = Error msg ∨ ((∃ u, snapshot p = Ok u) ∧ msg = FAILED))))).
Proof.
  unfold handle_cf_challenge, challenge.
  destruct (detection p) as [[|]|m0] eqn:Hd;
    [destruct (resolution p) as [u|m1] eqn:Hr;
     [|destruct (snapshot p) as [v|m2] eqn:Hs]| |].
  all: change (Text.contains "Timeout" FAILED) with false.
  all: repeat match goal with
              | |- context [Text.contains "Timeout" ?m] =>
                  let H := fresh "Ht" in destruct (Text.contains "Timeout" m) eqn:H
              end.
  all: split; [split|].
  all: try solve [intros Hx; try discriminate Hx; eauto].
  all: try solve [intros [Hx [u' Hu]]; first [reflexivity|discriminate]].
  all: intros msg Hx; try discriminate Hx;
       injection Hx as <-; (split; [first [assumption|reflexivity]|]); eauto 10.
Qed.

(** X22 — [False] does not always mean that no challenge was met.
    [handle_cf_challenge] returns [False] exactly when nothing was
    detected (the wait returned nothing or raised an error whose text
    contains "Timeout"), or when a challenge was detected, did not clear,
    and the screenshot of the failure raised an error whose text contains
    "Timeout". *)
Theorem handle_cf_challenge_false_iff (p : Page) :
  handle_cf_challenge p = Ok false ↔
    detection p = Ok false ∨
    (∃ msg, detection p = Error msg ∧ Text.contains "Timeout" msg = true) ∨
    (detection p = Ok true ∧ (∃ m, resolution p = Error m) ∧
     ∃ msg, snapshot p = Error msg ∧ Text.contains "Timeout" msg = true).
Proof.
  unfold handle_cf_challenge, challenge.
  destruct (detection p) as [[|]|m0] eqn:Hd;
    [destruct (resolution p) as [u|m1] eqn:Hr;
     [|destruct (snapshot p) as [v|m2] eqn:Hs]| |].
  all: change (Text.contains "Timeout" FAILED) with false.
  all: repeat match goal with
              | |- context [Text.contains "Timeout" ?m] =>
                  let H := fresh "Ht" in destruct (Text.contains "Timeout" m) eqn:H
              end.
  all: split; [intros Hx; try discriminate Hx; eauto 10|].
  all: intros [Hx|[(msg & Hx & Hm)|(Hx & (m & Hm) & msg & Hs' & Hc)]];
       try discriminate Hx; try discriminate Hm; try discriminate Hs';
       try reflexivity.
  all: try (injection Hx as <-; congruence).
  all: try (injection Hs' as <-; congruence).
Qed.

End CloudflareFacts.


(** ** The flows through the site's forms *)

Section SiteFacts.
Import Site.
Variable w : World.
Variable credentials : Credentials.
Variable test_type : string.

Lemma site_bind_run {A B} (m : SiteM A) (f : A → SiteM B) s :
  (m ≫= f) s =
  match m s with
  | (Returned a, s') => f a s'
  | (Raised, s') => (Raised, s')
  end.
Proof. reflexivity. Qed.

Lemma act_run a s :
  act w a s =
  if fails w (steps s) a then (Raised, next s)
  else (Returned tt, mkSession (logged_in s) (S (steps s)) (log s ++ [a])).
Proof. reflexivity. Qed.

Lemma handle_cf_challenge_run s :
  ∃ r, handle_cf_challenge w s = (r, next s).
Proof.
  unfold handle_cf_challenge.
  destruct (CloudflareBypass.handle_cf_challenge _); eauto.
Qed.

(** One step of a sequence: the first computation of the bind in [H] is
    run; the case where it raises is left to [tac]. *)
Ltac act_step H :=
  rewrite site_bind_run, act_run in H;
  match type of H with
  | context [fails ?w0 ?n ?a] =>
      destruct (fails w0 n a);
      [ | cbn beta iota in H; cbn [logged_in steps log] in H ]
  end.

Ltac cf_step H :=
  rewrite site_bind_run in H;
  match type of H with
  | context [handle_cf_challenge ?w0 ?s0] =>
      let r := fresh "r" in let E := fresh "E" in
      destruct (handle_cf_challenge_run s0) as [r E]; rewrite E in H;
      destruct r; cbn beta iota in H; unfold next in H;
      cbn [logged_in steps log] in H; clear E
  end.

Ltac query_step H :=
  rewrite site_bind_run in H; unfold query at 1 in H;
  cbn beta iota in H; unfold next in H; cbn [logged_in steps log] in H.

Ltac quiet_log :=
  eexists; split;
  [ first [ reflexivity
          | symmetry; apply app_nil_r
          | rewrite <- !app_assoc; reflexivity ]
  | cbn [app]; repeat constructor; intros ? ?; discriminate ].

(** The sequence has ended in [H] without a link being clicked. *)
Ltac quiet_end H :=
  cbn beta iota in H; cbn [logged_in steps log] in H;
  injection H as <- <-; right; cbn [logged_in steps log next];
  split; [discriminate|]; split; [reflexivity|]; quiet_log.

Lemma site_bind_assoc {A B C} (m : SiteM A) (f : A → SiteM B) (g : B → SiteM C) s :
  ((m ≫= f) ≫= g) s = (m ≫= λ a, f a ≫= g) s.
Proof. rewrite !site_bind_run. destruct (m s) as [[|] ?]; reflexivity. Qed.

Lemma login_submit_cases s r s' :
  (act w (ClickAt "#booking-login");;
   attempt
     (act w (AwaitSelector "#find-test-centres, .error-summary");;
      query w (λ w n, found w n ".error-summary") ≫= λ error : bool,
      if error then mret false
      else set_logged_in;; mret true)
     (mret false)) s = (r, s') →
  (r = Returned true ∧ logged_in s' = true ∧
   log s' = log s ++ [ClickAt "#booking-login";
                      AwaitSelector "#find-test-centres, .error-summary"]) ∨
  (r ≠ Returned true ∧ logged_in s' = logged_in s ∧
   ∃ added, log s' = log s ++ added ∧ Forall not_a_link added).
Proof.
  intros H.
  act_step H; [quiet_end H|].
  unfold attempt in H. act_step H; [quiet_end H|].
  query_step H.
  destruct (found w _ ".error-summary"); [quiet_end H|].
  injection H as <- <-. left. cbn [logged_in steps log].
  rewrite <- app_assoc. auto.
Qed.

Lemma login_body_cases s r s' :
  (act w (Navigate BASE_URL);;
   handle_cf_challenge w;;
   act w (ClickAt "a:text('Start now')");;
   act w (Navigate LOGIN_URL);;
   handle_cf_challenge w;;
   act w ScanHoneypots;;
   act w (TypeText "#driving-licence-number" (license_number credentials));;
   act w (TypeText "#application-reference-number" (application_reference credentials));;
   query w (λ w n, found w n "[data-sitekey]") ≫= λ recaptcha_element : bool,
   (if recaptcha_element then
      site_key ← query w data_sitekey;
      act w (SolveCaptcha site_key LOGIN_URL);;
      token ← query w token;
      act w (InjectToken token)
    else mret tt);;
   act w (ClickAt "#booking-login");;
   attempt
     (act w (AwaitSelector "#find-test-centres, .error-summary");;
      query w (λ w n, found w n ".error-summary") ≫= λ error : bool,
      if error then mret false
      else set_logged_in;; mret true)
     (mret false)) s = (r, s') →
  (r = Returned true ∧ logged_in s' = true ∧
   ∃ captcha, log s' = log s ++ login_actions credentials captcha ∧
     (captcha = [] ∨ ∃ k t, captcha = [SolveCaptcha k LOGIN_URL; InjectToken t])) ∨
  (r ≠ Returned true ∧ logged_in s' = logged_in s ∧
   ∃ added, log s' = log s ++ added ∧ Forall not_a_link added).
Proof.
  intros H.
  act_step H.
  { cbn beta iota in H; cbn [logged_in steps log] in H.
  injection H as <- <-. right. cbn [logged_in steps log next].
  split; [discriminate|]. split; [reflexivity|]. eexists. split. symmetry; apply app_nil_r. cbn [app]; repeat constructor; intros ? ?; discriminate. }
  cf_step H; [|quiet_end H].
  act_step H; [quiet_end H|].
  act_step H; [quiet_end H|].
  cf_step H; [|quiet_end H].
  act_step H; [quiet_end H|].
  act_step H; [quiet_end H|].
  act_step H; [quiet_end H|].
  query_step H.
  destruct (found w _ "[data-sitekey]").
  - rewrite site_bind_assoc in H. query_step H.
    rewrite site_bind_assoc in H. act_step H; [quiet_end H|].
    rewrite site_bind_assoc in H. query_step H.
    act_step H; [quiet_end H|].
    apply login_submit_cases in H. cbn [logged_in steps log] in H.
    destruct H as [(-> & Hin & Hlog)|(Hr & Hin & added & Hlog & Hq)].
    + left. repeat split; [assumption|]. eexists. split; [|right; eauto].
      rewrite Hlog, <- !app_assoc. reflexivity.
    + right. repeat split; [assumption..|]. eexists. split.
      * rewrite Hlog, <- !app_assoc. reflexivity.
      * cbn [app]. repeat (apply Forall_cons; split; [intros ? ?; discriminate|]).
        assumption.
  - cbn beta iota in H. rewrite site_bind_run in H. cbn beta iota in H.
    apply login_submit_cases in H. cbn [logged_in steps log] in H.
    destruct H as [(-> & Hin & Hlog)|(Hr & Hin & added & Hlog & Hq)].
    + left. repeat split; [assumption|]. exists []. split; [|left; reflexivity].
      rewrite Hlog, <- !app_assoc. reflexivity.
    + right. repeat split; [assumption..|]. eexists. split.
      * rewrite Hlog, <- !app_assoc. reflexivity.
      * cbn [app]. repeat (apply Forall_cons; split; [intros ? ?; discriminate|]).
        assumption.
Qed.

Lemma login_cases s r s' :
  login w credentials s = (r, s') →
  (logged_in s = true ∧ r = Returned true ∧ s' = s) ∨
  (logged_in s = false ∧
   ((r = Returned true ∧ logged_in s' = true ∧
     ∃ captcha, log s' = log s ++ login_actions credentials captcha ∧
       (captcha = [] ∨ ∃ k t, captcha = [SolveCaptcha k LOGIN_URL; InjectToken t])) ∨
    (r ≠ Returned true ∧ logged_in s' = false ∧
     (r = Raised → ∃ n, fails w n (Snapshot "login_error") = true) ∧
     ∃ added, log s' = log s ++ added ∧ Forall not_a_link added))).
Proof.
  unfold login. destruct (logged_in s) eqn:Hlog.
  { intros [= <- <-]. auto. }
  intros H. right. split; [reflexivity|]. unfold attempt at 1 in H.
  match type of H with
  | context [match ?b s with _ => _ end] => destruct (b s) as [[b'|] sb] eqn:Hb
  end; apply login_body_cases in Hb; rewrite Hlog in Hb.
  - injection H as <- <-.
    destruct Hb as [?|(Hr & Hin & Hq)]; [left; assumption|right].
    repeat split; try assumption. discriminate.
  - destruct Hb as [(? & _)|(_ & Hin & added & Hl & Hq)]; [discriminate|].
    right. rewrite site_bind_run, act_run in H.
    destruct (fails w (steps sb) (Snapshot "login_error")) eqn:Hf;
      cbn beta iota in H; injection H as <- <-; cbn [logged_in steps log next].
    + repeat split; [discriminate|assumption|eauto|eauto].
    + repeat split; [discriminate|assumption|discriminate|].
      eexists. split; [rewrite Hl, <- app_assoc; reflexivity|].
      apply Forall_app. split; [assumption|].
      repeat constructor. intros ? ?; discriminate.
Qed.

Lemma login_true_sets_flag s s' :
  login w credentials s = (Returned true, s') → logged_in s' = true.
Proof.
  intros H. apply login_cases in H.
  destruct H as [(Hin & _ & ->)|(_ & [(_ & Hin & _)|(Hr & _)])];
    [assumption..|congruence].
Qed.

(** *** Composition of computations that click no result link *)

Lemma grows_ret {A} P (a : A) : grows P (mret a : SiteM A).
Proof. intros s r s' [= <- <-]. split; [auto|]. exists []. rewrite app_nil_r. auto. Qed.

Lemma grows_fail {A} P : grows P (@fail A).
Proof. intros s r s' [= <- <-]. split; [auto|]. exists []. rewrite app_nil_r. auto. Qed.

Lemma grows_bind {A B} P (m : SiteM A) (f : A → SiteM B) :
  grows P m → (∀ a, grows P (f a)) → grows P (m ≫= f).
Proof.
  intros Hm Hf s r s' H. rewrite site_bind_run in H.
  destruct (m s) as [[a|] s1] eqn:E; apply Hm in E as (Hin & added & Hl & HP).
  - apply Hf in H as (Hin' & added' & Hl' & HP'). split; [auto|].
    exists (added ++ added'). rewrite Hl', Hl, app_assoc. split; [reflexivity|].
    apply Forall_app; auto.
  - injection H as <- <-. eauto.
Qed.

Lemma grows_attempt {A} P (m h : SiteM A) :
  grows P m → grows P h → grows P (attempt m h).
Proof.
  intros Hm Hh s r s' H. unfold attempt in H.
  destruct (m s) as [[a|] s1] eqn:E; apply Hm in E as (Hin & added & Hl & HP).
  - injection H as <- <-. eauto.
  - apply Hh in H as (Hin' & added' & Hl' & HP'). split; [auto|].
    exists (added ++ added'). rewrite Hl', Hl, app_assoc. split; [reflexivity|].
    apply Forall_app; auto.
Qed.

Lemma grows_act (P : Action → Prop) a : P a → grows P (act w a).
Proof.
  intros Ha s r s' H. rewrite act_run in H.
  destruct (fails w (steps s) a); injection H as <- <-; cbn; split; auto.
  - exists []. rewrite app_nil_r. auto.
  - exists [a]. auto.
Qed.

Lemma grows_query {A} P (f : World → nat → A) : grows P (query w f).
Proof. intros s r s' [= <- <-]. split; [auto|]. exists []. rewrite app_nil_r. auto. Qed.

Lemma grows_cf P : grows P (handle_cf_challenge w).
Proof.
  intros s r s' H. destruct (handle_cf_challenge_run s) as [r0 E].
  rewrite E in H. injection H as <- <-. split; [auto|].
  exists []. rewrite app_nil_r. auto.
Qed.

Lemma grows_login : grows not_a_link (login w credentials).
Proof.
  intros s r s' H. apply login_cases in H.
  destruct H as [(Hin & _ & ->)|(Hin & [(_ & Hin' & captcha & Hl & Hc)|(_ & _ & _ & Hq)])].
  - split; [auto|]. exists []. rewrite app_nil_r. auto.
  - split; [auto|]. eexists. split; [exact Hl|].
    destruct Hc as [->|(k & t & ->)]; cbn;
      repeat constructor; intros ? ?; discriminate.
  - split; [congruence|]. exact Hq.
Qed.

Ltac grows_auto :=
  repeat first
    [ apply grows_ret | apply grows_fail | apply grows_query | apply grows_cf
    | apply grows_login
    | apply grows_act; intros ? ?; discriminate
    | apply grows_attempt | apply grows_bind
    | match goal with |- ∀ _, grows _ _ => intro end
    | match goal with |- grows _ (if ?b then _ else _) => destruct b end ].

Lemma grows_navigate :
  grows not_a_link (navigate_to_test_search w credentials test_type).
Proof.
  intros s r s' H. unfold navigate_to_test_search in H.
  match type of H with ?m s = _ => assert (G : grows not_a_link m) end;
    [|exact (G _ _ _ H)].
  apply grows_bind.
  - destruct (logged_in s); grows_auto.
  - intros [|]; cbn [negb]; grows_auto.
Qed.

(** *** The choice of a result link *)

Lemma choose_link_cases name texts position s r s' :
  choose_link w name texts position s = (r, s') →
  logged_in s' = logged_in s ∧
  ((r = Returned true ∧
    ∃ k, first_match name texts k ∧ log s' = log s ++ [ClickLink (position + k)]) ∨
   (r ≠ Returned true ∧ log s' = log s)).
Proof.
  revert position s. induction texts as [|[text|] rest IH]; intros position s H.
  - injection H as <- <-. split; [reflexivity|]. right. split; [discriminate|reflexivity].
  - cbn [choose_link] in H.
    destruct (Text.contains (Text.lower name) (Text.lower text)) eqn:Hm.
    + rewrite site_bind_run, act_run in H.
      destruct (fails w (steps s) (ClickLink position));
        cbn beta iota in H; injection H as <- <-; cbn [logged_in steps log next];
        (split; [reflexivity|]).
      * right. split; [discriminate|reflexivity].
      * left. split; [reflexivity|]. exists 0. rewrite Nat.add_0_r.
        split; [|reflexivity]. split; [exists text; auto|]. intros j Hj; lia.
    + apply IH in H as (Hin & [(-> & k & ((t & Hk & Ht) & Hbefore) & Hl)|(Hr & Hl)]).
      * split; [assumption|]. left. split; [reflexivity|]. exists (S k).
        rewrite Nat.add_succ_r. split; [|exact Hl].
        split; [exists t; auto|].
        intros [|j] Hj; [exists text; auto|]. apply Hbefore. lia.
      * split; [assumption|]. right. auto.
  - injection H as <- <-. split; [reflexivity|]. right. split; [discriminate|reflexivity].
Qed.

Ltac searched_end H :=
  cbn beta iota in H; cbn [logged_in steps log] in H;
  injection H as <- <-; cbn [logged_in steps log next];
  eexists; split;
  [ first [ reflexivity | symmetry; apply app_nil_r
          | rewrite <- !app_assoc; reflexivity ]
  | right; split; [discriminate|];
    cbn [app]; repeat constructor; intros ? ?; discriminate ].

Lemma search_rest_cases name s r s' :
  (act w (AwaitSelector "#test-centres-near-you");;
   act w (ClearField "#test-centres-near-you");;
   act w (TypeText "#test-centres-near-you" name);;
   act w (ClickAt "#test-centres-submit");;
   act w (AwaitSelector ".test-centre-results");;
   result_links ← query w link_texts;
   choose_link w name result_links 0) s = (r, s') →
  searched w name s r s'.
Proof.
  intros H. unfold searched.
  act_step H; [searched_end H|].
  act_step H; [searched_end H|].
  act_step H; [searched_end H|].
  act_step H; [searched_end H|].
  act_step H; [searched_end H|].
  query_step H.
  apply choose_link_cases in H as (_ & [(-> & k & Hk & Hl)|(Hr & Hl)]);
    cbn [logged_in steps log] in Hl; rewrite Hl.
  - eexists. split; [rewrite <- !app_assoc; reflexivity|]. left.
    split; [reflexivity|].
    eexists [_; _; _; _; _], _, k. split; [reflexivity|]. split; [|exact Hk].
    repeat constructor; intros ? ?; discriminate.
  - eexists. split; [rewrite <- !app_assoc; reflexivity|]. right.
    split; [assumption|]. cbn [app]. repeat constructor; intros ? ?; discriminate.
Qed.

Lemma searched_after name s s1 r s' added :
  log s1 = log s ++ added → Forall not_a_link added →
  searched w name s1 r s' → searched w name s r s'.
Proof.
  intros Hl Hq (added' & Hl' & H). exists (added ++ added').
  rewrite Hl', Hl, app_assoc. split; [reflexivity|].
  destruct H as [(-> & before & n & k & -> & Hb & Hk)|(Hr & Hq')].
  - left. split; [reflexivity|]. exists (added ++ before), n, k.
    rewrite app_assoc. split; [reflexivity|]. split; [|exact Hk].
    apply Forall_app; auto.
  - right. split; [assumption|]. apply Forall_app; auto.
Qed.

Lemma search_test_center_cases test_center s r s' :
  search_test_center w credentials test_type test_center s = (r, s') →
  searched w (center_name test_center) s r s'.
Proof.
  intros H. unfold search_test_center, attempt in H.
  match type of H with
  | context [match ?b s with _ => _ end] =>
      assert (Hb : ∀ rb sb, b s = (rb, sb) →
                searched w (center_name test_center) s rb sb)
  end.
  { clear H. intros rb sb H. query_step H. rewrite site_bind_run in H.
    destruct (found w (steps s) "#test-centres-near-you").
    - cbn beta iota in H. apply search_rest_cases in H.
      eapply searched_after; [| |exact H]; [symmetry; apply app_nil_r|constructor].
    - rewrite site_bind_run in H.
      destruct (navigate_to_test_search w credentials test_type _)
        as [[b|] sn] eqn:Hn; apply grows_navigate in Hn as (_ & added & Hl & Hq);
        cbn [logged_in steps log] in Hl; cbn beta iota in H.
      + apply search_rest_cases in H. eapply searched_after; eauto.
      + injection H as <- <-. exists added. split; [assumption|].
        right. split; [discriminate|assumption]. }
  match type of H with
  | context [match ?b s with _ => _ end] => destruct (b s) as [[b'|] sb] eqn:E
  end; clear E; pose proof (Hb _ _ eq_refl) as E; clear Hb.
  - injection H as <- <-. exact E.
  - destruct E as (added & Hl & [(? & _)|(_ & Hq)]); [discriminate|].
    rewrite site_bind_run, act_run in H.
    destruct (fails w (steps sb) (Snapshot "search_error"));
      cbn beta iota in H; injection H as <- <-; cbn [log next].
    + exists added. split; [assumption|]. right. split; [discriminate|assumption].
    + exists (added ++ [Snapshot "search_error"]). rewrite Hl, app_assoc.
      split; [reflexivity|]. right. split; [discriminate|].
      apply Forall_app. split; [assumption|]. repeat constructor. intros ? ?; discriminate.
Qed.

(** X23 — [login] returns [True] exactly when the [logged_in] flag is set
    when it ends, whatever the site does: no path sets the flag and
    returns [False] or raises, and none returns [True] with the flag
    unset. *)
Theorem login_true_iff_logged_in s :
  (login w credentials s).1 = Returned true ↔
  logged_in (login w credentials s).2 = true.
Proof.
  destruct (login w credentials s) as [r s'] eqn:H. cbn [fst snd].
  apply login_cases in H.
  destruct H as [(Hin & -> & ->)|(Hin & [(-> & Hin' & _)|(Hr & Hin' & _)])].
  - tauto.
  - tauto.
  - split; [tauto|congruence].
Qed.

(** X24 — [login] catches every exception of its steps; one escapes only
    when the screenshot taken in the handler raises. *)
Theorem login_raises_only_if_screenshot_raises s :
  (login w credentials s).1 = Raised →
  ∃ n, fails w n (Snapshot "login_error") = true.
Proof.
  destruct (login w credentials s) as [r s'] eqn:H. cbn [fst]. intros ->.
  apply login_cases in H.
  destruct H as [(_ & ? & _)|(_ & [(? & _)|(_ & _ & Hs & _)])];
    [discriminate..|auto].
Qed.


(** X26 — [navigate_to_test_search] returns [True] only on a session
    that is logged in when it ends. *)
Theorem navigate_true_is_logged_in s :
  (navigate_to_test_search w credentials test_type s).1 = Returned true →
  logged_in (navigate_to_test_search w credentials test_type s).2 = true.
Proof.
  destruct (navigate_to_test_search w credentials test_type s) as [r s'] eqn:H.
  cbn [fst snd]. intros ->. unfold navigate_to_test_search in H.
  rewrite site_bind_run in H.
  assert (Hrest : ∀ s1, logged_in s1 = true →
    (if negb true then mret false else
     attempt
       (query w (λ w n, found w n "#find-test-centres") ≫= λ on_page : bool,
        (if on_page then mret tt
         else act w (Navigate BOOKING_URL);; handle_cf_challenge w;; mret tt);;
        query w (λ w n, found w n ("a:text-matches('" +:+ test_type +:+ "', 'i')"))
        ≫= λ test_type_button : bool,
        (if test_type_button
         then act w (ClickAt ("a:text-matches('" +:+ test_type +:+ "', 'i')"))
         else mret tt);;
        act w (AwaitSelector "#test-centres-near-you");;
        mret true)
       (act w (Snapshot "navigate_error");; mret false)) s1 = (Returned true, s') →
    logged_in s' = true).
  { intros s1 Hin H1. cbn [negb] in H1. revert H1.
    match goal with |- ?m s1 = _ → _ => assert (G : grows not_a_link m) by grows_auto end.
    intros H1. apply G in H1 as (Hk & _). auto. }
  destruct (logged_in s) eqn:Hin.
  - cbn beta iota in H. apply (Hrest s Hin H).
  - destruct (login w credentials s) as [[[|]|] s1] eqn:Hl.
    + apply (Hrest s1); [|exact H]. exact (login_true_sets_flag _ _ Hl).
    + cbn in H. discriminate H.
    + discriminate H.
Qed.

(** X27 — when [search_test_center] returns [True], the last call it made
    is [realistic_click] on a result link, and that link is the first one
    whose text contains the centre's name, letter case apart; every link
    before it has a text that does not contain the name. *)
Theorem search_true_clicks_first_match test_center s :
  (search_test_center w credentials test_type test_center s).1 = Returned true →
  ∃ before n k,
    log (search_test_center w credentials test_type test_center s).2
      = log s ++ before ++ [ClickLink k] ∧
    Forall not_a_link before ∧
    first_match (center_name test_center) (link_texts w n) k.
Proof.
  destruct (search_test_center w credentials test_type test_center s)
    as [r s'] eqn:H. cbn [fst snd]. intros ->.
  apply search_test_center_cases in H as (added & Hl & [(_ & before & n & k & -> & Hb & Hk)|(? & _)]);
    [|congruence].
  exists before, n, k. auto.
Qed.

(** X28 — [search_test_center] returns [True] exactly when a call of
    [realistic_click] on a result link is among the calls that returned
    during it; it only adds to the calls made before. *)
Theorem search_true_iff_link_clicked test_center s :
  ∃ added,
    log (search_test_center w credentials test_type test_center s).2 = log s ++ added ∧
    ((search_test_center w credentials test_type test_center s).1 = Returned true ↔
     ∃ k, ClickLink k ∈ added).
Proof.
  destruct (search_test_center w credentials test_type test_center s)
    as [r s'] eqn:H. cbn [fst snd].
  apply search_test_center_cases in H as (added & Hl & H).
  exists added. split; [assumption|].
  destruct H as [(-> & before & n & k & -> & _)|(Hr & Hq)].
  - split; [|reflexivity]. intros _. exists k.
    apply elem_of_app. right. apply list_elem_of_here.
  - split; [intros; contradiction|]. intros (k & Hk).
    rewrite Forall_forall in Hq. destruct (Hq _ Hk k eq_refl).
Qed.

End SiteFacts.

Section SiteWitnesses.
Import Site SiteSamples.

Lemma login_raises_only_if_screenshot_raises_witness :
  ∃ n, fails stormy n (Snapshot "login_error") = true.
Proof.
  apply (login_raises_only_if_screenshot_raises stormy applicant fresh).
  vm_compute. reflexivity.
Defined.


Lemma navigate_true_is_logged_in_witness :
  logged_in (navigate_to_test_search calm applicant "car" fresh).2 = true.
Proof.
  apply (navigate_true_is_logged_in calm applicant "car" fresh).
  vm_compute. reflexivity.
Defined.

Lemma search_true_clicks_first_match_witness :
  ∃ before n k,
    log (search_test_center calm applicant "car" wood_green fresh).2
      = log fresh ++ before ++ [ClickLink k] ∧
    Forall not_a_link before ∧
    first_match (center_name wood_green) (link_texts calm n) k.
Proof.
  apply (search_true_clicks_first_match calm applicant "car" wood_green fresh).
  vm_compute. reflexivity.
Defined.

End SiteWitnesses.


(** ** Evaluations of the further properties on the sample data *)

Section MoreWitnesses.
Import Scenario Samples Cases.

Lemma scan_times_is_filter_witness :
  scan_times criteria centre_A "2024-06-03"
    [Some "08:30"; None; Some "10:00"; Some ""; Some "12:00"; Some "12:01"] []
    start
  = (Returned [slot_of "A" "2024-06-03" "10:00";
               slot_of "A" "2024-06-03" "12:00"], start).
Proof.
  destruct (scan_times criteria centre_A "2024-06-03"
              [Some "08:30"; None; Some "10:00"; Some ""; Some "12:00"; Some "12:01"] []
              start) as [[slots|] st'] eqn:Hrun.
  - rewrite (scan_times_is_filter _ _ _ _ _ _ _ _ Hrun).
    vm_compute in Hrun. injection Hrun as _ <-. reflexivity.
  - vm_compute in Hrun. discriminate Hrun.
Defined.

Lemma unsatisfiable_criteria_give_no_slots_witness :
  (check_available_slots confirming inverted_window centre_A signed_in).1
  = Returned [].
Proof.
  destruct (check_available_slots confirming inverted_window centre_A signed_in)
    as [[slots|] st'] eqn:Hrun.
  - cbn [fst]. f_equal.
    apply (unsatisfiable_criteria_give_no_slots _ _ _ _ _ _ Hrun).
    right. right. exists (12, 0)%Z, (9, 0)%Z. vm_compute. auto.
  - vm_compute in Hrun. discriminate Hrun.
Defined.

Lemma book_slot_false_after_notification_witness :
  ∃ st' evs,
    book_slot shaky A_0603_1000 signed_in = (Returned false, st') ∧
    trace st' = trace signed_in ++ evs ∧
    notifications evs = [("A", "2024-06-03", "10:00")].
Proof.
  apply (book_slot_false_after_notification shaky A_0603_1000 signed_in
           "Your test is Booked");
    vm_compute; reflexivity.
Defined.

Lemma run_monitoring_cycle_true_is_confirmed_witness :
  logged_in (run_monitoring_cycle confirming criteria start).2 = true ∧
  ∃ s evs,
    trace (run_monitoring_cycle confirming criteria start).2
    = trace start ++ evs ++ confirmed_booking s.
Proof.
  apply (run_monitoring_cycle_true_is_confirmed confirming criteria start).
  vm_compute. reflexivity.
Defined.

Lemma no_slots_no_attempt_witness :
  attempts (trace (run_monitoring_cycle barren criteria signed_in).2) = [] ∧
  notifications (trace (run_monitoring_cycle barren criteria signed_in).2) = [] ∧
  (run_monitoring_cycle barren criteria signed_in).1 = Returned false.
Proof.
  apply (no_slots_no_attempt barren criteria signed_in
           (run_monitoring_cycle barren criteria signed_in).2).
  - destruct (run_monitoring_cycle barren criteria signed_in); reflexivity.
  - reflexivity.
  - intros c slots Hin.
    match type of Hin with
    | _ ∈ ?l => let v := eval vm_compute in l in change l with v in Hin
    end.
    rewrite !elem_of_cons, elem_of_nil in Hin.
    destruct Hin as [Hin|[Hin|[Hin|[Hin|[]]]]]; congruence.
Defined.

Lemma setup_browser_without_proxy_witness :
  ∃ st' pv,
    setup_browser confirming no_proxy = (Raised, st') ∧
    trace st' = trace no_proxy ++ pv ∧ (pv = [] ∨ pv = [PlaywrightStarted]) ∧
    browser st' = browser no_proxy ∧ context st' = context no_proxy ∧
    page st' = page no_proxy.
Proof.
  apply (setup_browser_without_proxy confirming no_proxy). cbn. lia.
Defined.

Lemma loop_ends_after_confirmed_booking_witness :
  ∃ evs s,
    trace (supervise rejecting_once criteria 2 signed_in).2
    = trace signed_in ++ evs ++ confirmed_booking s.
Proof.
  apply (loop_ends_after_confirmed_booking rejecting_once criteria 2 signed_in).
  vm_compute. reflexivity.
Defined.

Lemma run_with_inverted_interval_witness :
  run rejecting inverted_interval 5 start = run rejecting inverted_interval 1 start ∧
  ∀ st', run rejecting inverted_interval 5 start ≠ (Returned false, st').
Proof.
  apply (run_with_inverted_interval rejecting inverted_interval 4 start).
  vm_compute. reflexivity.
Defined.

End MoreWitnesses.
